(** * LiveDataRag: the dashboard's stores, rule editor and action preview,
    and the action engine they talk to.

  The React/zustand code of the front end is embedded as pure state
  transformers: a [set(state => ...)] updater becomes a function on the
  state record, a component with [useState]/[useEffect] becomes a step
  function over the events it can receive, and an [async] function that
  may throw returns a sum.  A render that refers to a name its module does
  not import throws, and a component whose render throws runs no effect and
  shows no button.  The engine behind the HTTP API (Safety Gate,
  Confirmation Manager, Decision Scorer, Condition Evaluator) is not part
  of the front end; where a property is about it, it is modelled from the
  specification and marked so. *)

From Stdlib Require Import ZArith QArith Qround String Ascii List Bool Lia.
From stdpp Require Import base option list strings gmap fin_maps.

Close Scope Q_scope.
Local Open Scope string_scope.
Local Open Scope list_scope.

(* ===================================================================== *)
(** ** JavaScript values *)
(* ===================================================================== *)

Module JS.

(** Primitive values compare by value under [===]; every object or array
    is known only by its reference.  Numbers are exact rationals plus
    [NaN]; rounding of doubles is not modelled. *)
Inductive jsval : Type :=
| JUndefined
| JNull
| JBool (b : bool)
| JNum (q : Q)
| JNaN
| JStr (s : string)
| JRef (addr : nat).

(** [a === b] *)
Definition strict_eq (a b : jsval) : bool :=
  match a, b with
  | JUndefined, JUndefined => true
  | JNull, JNull => true
  | JBool x, JBool y => Bool.eqb x y
  | JNum x, JNum y => Qeq_bool x y
  | JStr x, JStr y => String.eqb x y
  | JRef x, JRef y => Nat.eqb x y
  | _, _ => false
  end.

(** A plain object: own properties by key. *)
Abbreviation obj := (gmap string jsval).

(** [o.k]: a missing property reads as [undefined]. *)
Definition get (o : obj) (k : string) : jsval := default JUndefined (o !! k).

(** [{ ...a, ...b }]: the properties of [b] win. *)
Definition spread (a b : obj) : obj := b ∪ a.

(** [xs.slice(0, n)] for [n >= 0]. *)
Definition slice0 {A} (n : nat) (xs : list A) : list A := take n xs.

(** A string the code trims, splits or joins is kept as its UTF-16 code
    units (numbers below 2^16), since [trim] depends on which of them are
    white space.  Strings that are only compared with literals stay
    [string]s. *)
Definition utf16 : Type := list N.

(** The code unit of an ASCII character and the code units of an ASCII
    literal. *)
Definition chr (a : ascii) : N := N_of_ascii a.

Definition lit (s : string) : utf16 :=
  List.map chr (list_ascii_of_string s).

(** White space for [trim]: ECMAScript's WhiteSpace (TAB, VT, FF, U+FEFF and
    the space separators U+0020, U+00A0, U+1680, U+2000 to U+200A, U+202F,
    U+205F, U+3000) and LineTerminator (LF, CR, U+2028, U+2029). *)
Definition is_space (c : N) : bool :=
  ((9 <=? c) && (c <=? 13)
   || (c =? 32) || (c =? 160) || (c =? 5760)
   || (8192 <=? c) && (c <=? 8202)
   || (c =? 8232) || (c =? 8233) || (c =? 8239) || (c =? 8287)
   || (c =? 12288) || (c =? 65279))%N.

(** The [n] code units from [c] upwards. *)
Fixpoint code_units (n : nat) (c : N) : utf16 :=
  match n with
  | 0 => []
  | S n' => c :: code_units n' (N.succ c)
  end.

Fixpoint drop_spaces (cs : utf16) : utf16 :=
  match cs with
  | [] => []
  | c :: cs' => if is_space c then drop_spaces cs' else cs
  end.

(** [s.trim()] *)
Definition trim (s : utf16) : utf16 :=
  rev (drop_spaces (rev (drop_spaces s))).

(** Truthiness of a string: only the empty string is falsy. *)
Definition truthy_str (s : string) : bool := negb (String.eqb s "").

Definition truthy_utf16 (s : utf16) : bool :=
  match s with
  | [] => false
  | _ :: _ => true
  end.

(** Truthiness of a value. *)
Definition truthy (v : jsval) : bool :=
  match v with
  | JUndefined | JNull | JNaN => false
  | JBool b => b
  | JNum q => negb (Qeq_bool q 0)
  | JStr s => truthy_str s
  | JRef _ => true
  end.

(** [a || b] *)
Definition or_else (a b : jsval) : jsval := if truthy a then a else b.

(** An awaited call either resolves or rejects. *)
Inductive awaited (A E : Type) : Type :=
| Resolved (a : A)
| Rejected (e : E).
Arguments Resolved {A E} a.
Arguments Rejected {A E} e.

End JS.

(* ===================================================================== *)
(** ** store/systemStore.js *)
(* ===================================================================== *)

Module SystemStore.
Import JS.

Record NotificationPreferences : Type := {
  email : bool;
  push : bool;
  sound : bool
}.

Record State : Type := {
  isActive : bool;
  wsConnected : bool;
  lastError : option string;
  dataStreams : list jsval;
  actions : list jsval;
  queries : list jsval;
  autoConfirmActions : bool;
  notificationPreferences : NotificationPreferences
}.

(** The object literal the store is created with. *)
Definition initial : State := {|
  isActive := true;
  wsConnected := false;
  lastError := None;
  dataStreams := [];
  actions := [];
  queries := [];
  autoConfirmActions := false;
  notificationPreferences := {| email := true; push := true; sound := true |}
|}.

(** The payload of [updateSystemStatus], by the data keys of the store:
    [None] where the payload lacks the key.  [set({ ...status })] copies
    every key the payload has, the history arrays among them. *)
Record StatusPatch : Type := {
  p_isActive : option bool;
  p_wsConnected : option bool;
  p_lastError : option (option string);
  p_dataStreams : option (list jsval);
  p_actions : option (list jsval);
  p_queries : option (list jsval);
  p_autoConfirmActions : option bool;
  p_notificationPreferences : option NotificationPreferences
}.

Record PrefsPatch : Type := {
  p_email : option bool;
  p_push : option bool;
  p_sound : option bool
}.

Definition toggleSystem (state : State) : State := {|
  isActive := negb (isActive state);
  wsConnected := wsConnected state;
  lastError := lastError state;
  dataStreams := dataStreams state;
  actions := actions state;
  queries := queries state;
  autoConfirmActions := autoConfirmActions state;
  notificationPreferences := notificationPreferences state
|}.

Definition addDataStream (stream : jsval) (state : State) : State := {|
  isActive := isActive state;
  wsConnected := wsConnected state;
  lastError := lastError state;
  dataStreams := stream :: slice0 49 (dataStreams state);
  actions := actions state;
  queries := queries state;
  autoConfirmActions := autoConfirmActions state;
  notificationPreferences := notificationPreferences state
|}.

Definition addAction (action : jsval) (state : State) : State := {|
  isActive := isActive state;
  wsConnected := wsConnected state;
  lastError := lastError state;
  dataStreams := dataStreams state;
  actions := action :: slice0 99 (actions state);
  queries := queries state;
  autoConfirmActions := autoConfirmActions state;
  notificationPreferences := notificationPreferences state
|}.

Definition addQuery (query : jsval) (state : State) : State := {|
  isActive := isActive state;
  wsConnected := wsConnected state;
  lastError := lastError state;
  dataStreams := dataStreams state;
  actions := actions state;
  queries := query :: slice0 49 (queries state);
  autoConfirmActions := autoConfirmActions state;
  notificationPreferences := notificationPreferences state
|}.

(** [set({ ...status })]: the keys present in the payload overwrite. *)
Definition updateSystemStatus (status : StatusPatch) (state : State) : State := {|
  isActive := default (isActive state) (p_isActive status);
  wsConnected := default (wsConnected state) (p_wsConnected status);
  lastError := default (lastError state) (p_lastError status);
  dataStreams := default (dataStreams state) (p_dataStreams status);
  actions := default (actions state) (p_actions status);
  queries := default (queries state) (p_queries status);
  autoConfirmActions :=
    default (autoConfirmActions state) (p_autoConfirmActions status);
  notificationPreferences :=
    default (notificationPreferences state) (p_notificationPreferences status)
|}.

Definition setAutoConfirm (value : bool) (state : State) : State := {|
  isActive := isActive state;
  wsConnected := wsConnected state;
  lastError := lastError state;
  dataStreams := dataStreams state;
  actions := actions state;
  queries := queries state;
  autoConfirmActions := value;
  notificationPreferences := notificationPreferences state
|}.

Definition updateNotificationPrefs (prefs : PrefsPatch) (state : State) : State := {|
  isActive := isActive state;
  wsConnected := wsConnected state;
  lastError := lastError state;
  dataStreams := dataStreams state;
  actions := actions state;
  queries := queries state;
  autoConfirmActions := autoConfirmActions state;
  notificationPreferences := {|
    email := default (email (notificationPreferences state)) (p_email prefs);
    push := default (push (notificationPreferences state)) (p_push prefs);
    sound := default (sound (notificationPreferences state)) (p_sound prefs)
  |}
|}.

Definition clearHistory (state : State) : State := {|
  isActive := isActive state;
  wsConnected := wsConnected state;
  lastError := lastError state;
  dataStreams := [];
  actions := [];
  queries := [];
  autoConfirmActions := autoConfirmActions state;
  notificationPreferences := notificationPreferences state
|}.

(** One call of a store operation. *)
Inductive Op : Type :=
| ToggleSystem
| AddDataStream (stream : jsval)
| AddAction (action : jsval)
| AddQuery (query : jsval)
| UpdateSystemStatus (status : StatusPatch)
| SetAutoConfirm (value : bool)
| UpdateNotificationPrefs (prefs : PrefsPatch)
| ClearHistory.

Definition apply (state : State) (op : Op) : State :=
  match op with
  | ToggleSystem => toggleSystem state
  | AddDataStream stream => addDataStream stream state
  | AddAction action => addAction action state
  | AddQuery query => addQuery query state
  | UpdateSystemStatus status => updateSystemStatus status state
  | SetAutoConfirm value => setAutoConfirm value state
  | UpdateNotificationPrefs prefs => updateNotificationPrefs prefs state
  | ClearHistory => clearHistory state
  end.

(** The store after a sequence of calls. *)
Definition run (ops : list Op) (state : State) : State := foldl apply state ops.

(** A status payload with none of the keys [dataStreams], [actions],
    [queries]. *)
Definition history_free (status : StatusPatch) : bool :=
  match p_dataStreams status, p_actions status, p_queries status with
  | None, None, None => true
  | _, _, _ => false
  end.

(** A call that is not an [updateSystemStatus] carrying a history key. *)
Definition keeps_histories (op : Op) : bool :=
  match op with
  | UpdateSystemStatus status => history_free status
  | _ => true
  end.

Definition bounded (st : State) : Prop :=
  length (actions st) <= 100 /\
  length (dataStreams st) <= 50 /\
  length (queries st) <= 50.

(** [getStats().totalActions] and friends. *)
Definition totalActions (st : State) : nat := length (actions st).
Definition totalQueries (st : State) : nat := length (queries st).
Definition totalDataPoints (st : State) : nat := length (dataStreams st).

End SystemStore.

Module StoreSamples.
Import JS SystemStore.

(** [{ wsConnected: true }] *)
Definition connected : StatusPatch := {|
  p_isActive := None;
  p_wsConnected := Some true;
  p_lastError := None;
  p_dataStreams := None;
  p_actions := None;
  p_queries := None;
  p_autoConfirmActions := None;
  p_notificationPreferences := None
|}.

(** [{ actions: [null, ... 101 times] }] *)
Definition flood : StatusPatch := {|
  p_isActive := None;
  p_wsConnected := None;
  p_lastError := None;
  p_dataStreams := None;
  p_actions := Some (repeat JNull 101);
  p_queries := None;
  p_autoConfirmActions := None;
  p_notificationPreferences := None
|}.

End StoreSamples.

(* ===================================================================== *)
(** ** contexts/SystemContext (the React provider of the dashboard) *)
(* ===================================================================== *)

Module SystemContext.
Import JS.

(** What [enqueueSnackbar(message, { variant })] shows. *)
Record Snack : Type := {
  message : string;
  variant : string
}.

(** The axios response a call of [apiService] resolves to; the provider
    reads its [data], the body the server sent. *)
Record Response : Type := {
  data : jsval
}.

(** [response.success]: an axios response has the keys [data], [status],
    [statusText], [headers], [config] and [request], so the property is
    missing and reads as [undefined]. *)
Definition success (response : Response) : jsval := JUndefined.

(** The slices of provider state the rule and history handlers touch. *)
Record Ctx : Type := {
  dataStreams : list obj;
  actions : list jsval;
  rules : list obj;
  snackbar : list Snack
}.

(** [rule.id === ruleId] *)
Definition has_id (ruleId : jsval) (rule : obj) : bool :=
  strict_eq (get rule "id") ruleId.

(** [prev.map(rule => rule.id === ruleId ? { ...rule, ...updates } : rule)] *)
Definition updateRule_updater (ruleId : jsval) (updates : obj)
    (prev : list obj) : list obj :=
  List.map (fun rule => if has_id ruleId rule then spread rule updates else rule)
    prev.

(** [prev.filter(rule => rule.id !== ruleId)] *)
Definition deleteRule_updater (ruleId : jsval) (prev : list obj) : list obj :=
  List.filter (fun rule => negb (has_id ruleId rule)) prev.

Definition enqueue (m v : string) (st : Ctx) : Ctx := {|
  dataStreams := dataStreams st;
  actions := actions st;
  rules := rules st;
  snackbar := snackbar st ++ [{| message := m; variant := v |}]
|}.

Definition setRules (f : list obj -> list obj) (st : Ctx) : Ctx := {|
  dataStreams := dataStreams st;
  actions := actions st;
  rules := f (rules st);
  snackbar := snackbar st
|}.

Definition setActions (f : list jsval -> list jsval) (st : Ctx) : Ctx := {|
  dataStreams := dataStreams st;
  actions := f (actions st);
  rules := rules st;
  snackbar := snackbar st
|}.

Definition setDataStreams (f : list obj -> list obj) (st : Ctx) : Ctx := {|
  dataStreams := f (dataStreams st);
  actions := actions st;
  rules := rules st;
  snackbar := snackbar st
|}.

(** [updateRule]: [response] is the settled [apiService.updateRule] call. *)
Definition updateRule (response : awaited Response jsval)
    (ruleId : jsval) (updates : obj) (st : Ctx) : Ctx * awaited jsval jsval :=
  match response with
  | Resolved r =>
      (enqueue "Rule updated successfully" "success"
         (setRules (updateRule_updater ruleId updates) st),
       Resolved (data r))
  | Rejected error =>
      (enqueue "Failed to update rule" "error" st, Rejected error)
  end.

(** [deleteRule]: [response] is the settled [apiService.deleteRule] call. *)
Definition deleteRule (response : awaited Response jsval)
    (ruleId : jsval) (st : Ctx) : Ctx * awaited jsval jsval :=
  match response with
  | Resolved _ =>
      (enqueue "Rule deleted successfully" "success"
         (setRules (deleteRule_updater ruleId) st),
       Resolved JUndefined)
  | Rejected error =>
      (enqueue "Failed to delete rule" "error" st, Rejected error)
  end.

(** The request [apiService.confirmAction(actionId, confirm = true)] of
    api.js posts: the URL and the body [{ confirm }]. *)
Record ConfirmPost : Type := {
  url : string;
  body_confirm : bool
}.

Definition apiService_confirmAction (actionId : string)
    (confirm : option bool) : ConfirmPost := {|
  url := String.append "/api/v1/actions/confirm/" actionId;
  body_confirm := default true confirm
|}.

(** What the provider's [confirmAction(actionId, confirm = true)] hands to
    [apiService.confirmAction]. *)
Definition confirmAction_request (actionId : string)
    (confirm : option bool) : ConfirmPost :=
  apiService_confirmAction actionId (Some (default true confirm)).

(** [confirmAction(actionId, confirm = true)] of the provider; [response] is
    the settled [apiService.confirmAction] call.  The success notice depends
    on [response.success]. *)
Definition confirmAction (response : awaited Response jsval)
    (confirm : option bool) (st : Ctx) : Ctx * awaited Response jsval :=
  let confirm := default true confirm in
  match response with
  | Resolved response =>
      (if truthy (success response)
       then enqueue (if confirm then "Action confirmed" else "Action rejected")
              "success" st
       else st,
       Resolved response)
  | Rejected error =>
      (enqueue "Failed to confirm action" "error" st, Rejected error)
  end.

(** [prev.findIndex(p)], with [None] for [-1]. *)
Fixpoint findIndex {A} (p : A -> bool) (xs : list A) : option nat :=
  match xs with
  | [] => None
  | x :: xs' => if p x then Some 0 else S <$> findIndex p xs'
  end.

(** The updater of [handleDataUpdate]. *)
Definition handleDataUpdate_updater (data : obj) (prev : list obj) : list obj :=
  match findIndex (fun s => strict_eq (get s "id") (get data "id")) prev with
  | Some index => alter (fun s => spread s data) index prev
  | None => data :: slice0 49 prev
  end.

(** The updater of [handleActionExecuted]. *)
Definition handleActionExecuted_updater (action : jsval)
    (prev : list jsval) : list jsval :=
  action :: slice0 99 prev.

End SystemContext.

(* ===================================================================== *)
(** ** components/RulesManager/RuleCreator.jsx *)
(* ===================================================================== *)

Module RuleCreator.
Import JS.

(** The shape of [rule.condition] in the editor's initial state.
    [threshold] holds what the number input produced ([parseFloat]) or a
    template supplied: a number, [NaN], [null] or the empty string. *)
Record Condition : Type := {
  type : string;
  keywords : list utf16;
  field : string;
  operator : string;
  threshold : jsval;
  pattern : utf16
}.

Record Action : Type := {
  a_type : string;
  delay : Z;
  retry_attempts : Z
}.

Record Schedule : Type := {
  s_enabled : bool;
  cron_expression : string
}.

Record Notifications : Type := {
  on_success : bool;
  on_failure : bool;
  channels : list string
}.

Record Rule : Type := {
  name : utf16;
  description : string;
  enabled : bool;
  condition : Condition;
  action : Action;
  schedule : Schedule;
  notifications : Notifications
}.

(** The rule [useState] starts from when no [initialRule] is given. *)
Definition initialRule : Rule := {|
  name := [];
  description := "";
  enabled := true;
  condition := {|
    type := "keyword";
    keywords := [];
    field := "";
    operator := "greater_than";
    threshold := JNum 0;
    pattern := []
  |};
  action := {| a_type := "alert"; delay := 0; retry_attempts := 3 |};
  schedule := {| s_enabled := false; cron_expression := "* * * * *" |};
  notifications := {|
    on_success := true;
    on_failure := true;
    channels := ["email"; "slack"]
  |}
|}.

(** The [value]s of the [operators] menu. *)
Definition operators : list string :=
  ["greater_than"; "less_than"; "equals"; "not_equals"; "between"].

(** The [errors] object of [validateRule]: message by key. *)
Abbreviation Errors := (gmap string string).

Definition check_name (rule : Rule) (errors : Errors) : Errors :=
  if negb (truthy_utf16 (trim (name rule)))
  then <["name" := "Rule name is required"]> errors
  else errors.

Definition check_keywords (rule : Rule) (errors : Errors) : Errors :=
  if String.eqb (type (condition rule)) "keyword"
     && Nat.eqb (length (keywords (condition rule))) 0
  then <["keywords" := "At least one keyword is required"]> errors
  else errors.

Definition check_threshold (rule : Rule) (errors : Errors) : Errors :=
  if String.eqb (type (condition rule)) "threshold" then
    let errors :=
      if negb (truthy_str (field (condition rule)))
      then <["field" := "Field is required for threshold condition"]> errors
      else errors in
    if strict_eq (threshold (condition rule)) JNull
       || strict_eq (threshold (condition rule)) (JStr "")
    then <["threshold" := "Threshold value is required"]> errors
    else errors
  else errors.

Definition check_pattern (rule : Rule) (errors : Errors) : Errors :=
  if String.eqb (type (condition rule)) "pattern"
     && negb (truthy_utf16 (trim (pattern (condition rule))))
  then <["pattern" := "Pattern is required"]> errors
  else errors.

(** [validateRule]: the errors it stores with [setValidationErrors] and the
    boolean [Object.keys(errors).length === 0] it returns. *)
Definition validateRule (rule : Rule) : Errors * bool :=
  let errors :=
    check_pattern rule
      (check_threshold rule (check_keywords rule (check_name rule ∅))) in
  (errors, bool_decide (errors = ∅)).

(** Calls made on the props of the component. *)
Inductive Callback : Type :=
| OnSave (rule : Rule)
| OnTest (rule : Rule).

Record Editor : Type := {
  rule : Rule;
  validationErrors : Errors
}.

(** [handleSave]; [onSave] tells whether the optional prop was passed. *)
Definition handleSave (onSave : bool) (ed : Editor) : Editor * list Callback :=
  let (errors, valid) := validateRule (rule ed) in
  ({| rule := rule ed; validationErrors := errors |},
   if valid && onSave then [OnSave (rule ed)] else []).

(** [handleTest]; [onTest] tells whether the optional prop was passed. *)
Definition handleTest (onTest : bool) (ed : Editor) : Editor * list Callback :=
  let (errors, valid) := validateRule (rule ed) in
  ({| rule := rule ed; validationErrors := errors |},
   if valid && onTest then [OnTest (rule ed)] else []).

(** The [(field, value)] pairs the form passes to [handleConditionChange]. *)
Inductive ConditionChange : Type :=
| set_type (v : string)
| set_keywords (v : list utf16)
| set_field (v : string)
| set_operator (v : string)
| set_threshold (v : jsval)
| set_pattern (v : utf16).

Definition handleConditionChange (ch : ConditionChange) (r : Rule) : Rule :=
  let c := condition r in
  let c' :=
    match ch with
    | set_type v =>
        {| type := v; keywords := keywords c; field := field c;
           operator := operator c; threshold := threshold c;
           pattern := pattern c |}
    | set_keywords v =>
        {| type := type c; keywords := v; field := field c;
           operator := operator c; threshold := threshold c;
           pattern := pattern c |}
    | set_field v =>
        {| type := type c; keywords := keywords c; field := v;
           operator := operator c; threshold := threshold c;
           pattern := pattern c |}
    | set_operator v =>
        {| type := type c; keywords := keywords c; field := field c;
           operator := v; threshold := threshold c; pattern := pattern c |}
    | set_threshold v =>
        {| type := type c; keywords := keywords c; field := field c;
           operator := operator c; threshold := v; pattern := pattern c |}
    | set_pattern v =>
        {| type := type c; keywords := keywords c; field := field c;
           operator := operator c; threshold := threshold c; pattern := v |}
    end in
  {| name := name r; description := description r; enabled := enabled r;
     condition := c'; action := action r; schedule := schedule r;
     notifications := notifications r |}.

(** Bracket structure of an ECMAScript pattern: groups opened by "(" must be
    closed, a ")" needs an open group, a class opened by "[" must be closed,
    and a backslash must escape something.  [true] when the pattern is balanced
    in this sense. *)
Fixpoint balanced (cs : utf16) (depth : nat) (in_class : bool) : bool :=
  match cs with
  | [] => Nat.eqb depth 0 && negb in_class
  | c :: rest =>
      if N.eqb c (chr "\") then
        match rest with
        | [] => false
        | _ :: rest' => balanced rest' depth in_class
        end
      else if in_class then balanced rest depth (negb (N.eqb c (chr "]")))
      else if N.eqb c (chr "[") then balanced rest depth true
      else if N.eqb c (chr "(") then balanced rest (S depth) false
      else if N.eqb c (chr ")") then
        match depth with
        | 0 => false
        | S d => balanced rest d false
        end
      else balanced rest depth false
  end.

(** A pattern [new RegExp(p)] throws a SyntaxError on: unterminated group,
    unmatched ")", unterminated character class or trailing backslash.  (Other
    syntax errors exist; this is a sufficient test.) *)
Definition syntax_error (p : utf16) : bool :=
  negb (balanced p 0 false).

End RuleCreator.

(* ===================================================================== *)
(** ** The engine behind the API: Condition Evaluator *)
(* ===================================================================== *)

Module ConditionEvaluator.

Inductive Operator : Type := gt | lt | eq | neq | between.

(** Modelled from the spec: the [threshold] variant of [Rule.condition]
    read by the Condition Evaluator, which is not part of the front end:
    [threshold{field, operator, value, value2?}]. *)
Record Threshold : Type := {
  field : string;
  operator : Operator;
  value : Q;
  value2 : option Q
}.

Inductive Value : Type :=
| VNum (q : Q)
| VStr (s : string)
| VNested (serialized : string).

(** Modelled from the spec: a DataPoint, of which the Condition Evaluator
    (missing from the front end) reads the [fields] map. *)
Record DataPoint : Type := {
  timestamp : Z;
  source : string;
  fields : gmap string Value
}.

(** Modelled from the spec: the [MatchResult{matched, detail}] returned by
    the missing [evaluate]. *)
Record MatchResult : Type := {
  matched : bool;
  detail : string
}.

(** Modelled from the spec: the outcome of the missing [evaluate]: a
    [MatchResult], or an evaluation error. *)
Inductive Evaluation : Type :=
| Evaluated (m : MatchResult)
| EvaluationError (why : string).

(** Modelled from the spec: the missing comparison of the evaluator:
    [gt], [lt], [eq], [neq] compare the field to [value]; [between] requires
    [value <= field <= value2], bounds included. *)
Definition compare (op : Operator) (x v : Q) (v2 : option Q) : bool :=
  match op with
  | gt => negb (Qle_bool x v)
  | lt => negb (Qle_bool v x)
  | eq => Qeq_bool x v
  | neq => negb (Qeq_bool x v)
  | between =>
      match v2 with
      | Some hi => Qle_bool v x && Qle_bool x hi
      | None => false
      end
  end.

(** Modelled from the spec: the missing [evaluate] on a threshold condition.
    [between] without [value2] is an error; a field that is absent or not
    numeric gives [matched = false] with a "field missing" detail. *)
Definition evaluate_threshold (c : Threshold) (dp : DataPoint) : Evaluation :=
  match operator c, value2 c with
  | between, None => EvaluationError "value2 missing"
  | op, v2 =>
      match fields dp !! field c with
      | Some (VNum x) =>
          Evaluated {| matched := compare op x (value c) v2;
                       detail := "compared" |}
      | _ => Evaluated {| matched := false; detail := "field missing" |}
      end
  end.

(** The operator names of the rule editor, as the engine's variant. *)
Definition operator_of_string (s : string) : option Operator :=
  if String.eqb s "greater_than" then Some gt
  else if String.eqb s "less_than" then Some lt
  else if String.eqb s "equals" then Some eq
  else if String.eqb s "not_equals" then Some neq
  else if String.eqb s "between" then Some between
  else None.

(** The threshold condition carried by a rule saved from the editor: the
    posted condition object has the keys of [RuleCreator.Condition], so its
    single bound [threshold] is the [value] and there is no [value2]. *)
Definition of_saved (c : RuleCreator.Condition) : option Threshold :=
  if String.eqb (RuleCreator.type c) "threshold" then
    match operator_of_string (RuleCreator.operator c),
          RuleCreator.threshold c with
    | Some op, JS.JNum v =>
        Some {| field := RuleCreator.field c; operator := op;
                value := v; value2 := None |}
    | _, _ => None
    end
  else None.

End ConditionEvaluator.

(* ===================================================================== *)
(** ** Sample rules built through the editor's handlers *)
(* ===================================================================== *)

Module Samples.
Import JS RuleCreator.

Definition named (n : string) : Rule := {|
  name := lit n;
  description := description initialRule;
  enabled := enabled initialRule;
  condition := condition initialRule;
  action := action initialRule;
  schedule := schedule initialRule;
  notifications := notifications initialRule
|}.

Definition editing (r : Rule) : Editor :=
  {| rule := r; validationErrors := ∅ |}.

(** The placeholder pattern of the form. *)
Definition tickers : Rule :=
  handleConditionChange (set_pattern (lit "^[A-Z]{1,5}$"))
    (handleConditionChange (set_type "pattern") (named "tickers")).

(** An unterminated group. *)
Definition unterminated : Rule :=
  handleConditionChange (set_pattern (lit "("))
    (handleConditionChange (set_type "pattern") (named "tickers")).

(** A keyword template with two keywords. *)
Definition watchlist : Rule :=
  handleConditionChange (set_keywords [lit "TSLA"; lit "stock"])
    (named "watchlist").

(** Operator [between] picked from the menu, one bound typed in. *)
Definition price_band : Rule :=
  handleConditionChange (set_threshold (JNum 190))
    (handleConditionChange (set_operator "between")
       (handleConditionChange (set_field "price")
          (handleConditionChange (set_type "threshold") (named "price band")))).

End Samples.

(* ===================================================================== *)
(** ** ActionPreview: the confirm / reject card and its countdown *)
(* ===================================================================== *)

Module ActionPreview.
Import JS.

(** The fields of the [action] prop the countdown and the labels read.
    [requires_confirmation] may be missing from the object. *)
Record Action : Type := {
  action_type : string;
  reason : string;
  confidence : Q;
  requires_confirmation : option bool
}.

(** [onConfirm] and [onReject] tell whether the optional handlers were
    passed; [autoConfirm] defaults to [false]. *)
Record Props : Type := {
  action : option Action;
  onConfirm : bool;
  onReject : bool;
  autoConfirm : bool
}.

Record State : Type := {
  countdown : Z
}.

(** [useState(30)] *)
Definition mount : State := {| countdown := 30 |}.

(** [requires_confirmation = true] in the destructuring of [action]. *)
Definition requires (a : Action) : bool :=
  default true (requires_confirmation a).

(** The names the module of the component imports (lines 1250 to 1305); its
    JSX can refer to no other component. *)
Definition imports : list string :=
  ["React"; "useState";
   "Box"; "Paper"; "Typography"; "Button"; "Chip"; "Alert"; "AlertTitle";
   "Stack"; "Divider"; "Card"; "CardContent"; "CardActions"; "List";
   "ListItem"; "ListItemIcon"; "ListItemText"; "Collapse"; "IconButton";
   "LinearProgress"; "Tooltip"; "Dialog"; "DialogTitle"; "DialogContent";
   "DialogActions"; "TextField"; "FormControlLabel"; "Switch"; "Grid";
   "PlayArrow"; "Pause"; "Warning"; "CheckCircle"; "Error"; "Info";
   "Schedule"; "Lock"; "LockOpen"; "Visibility"; "VisibilityOff"; "History";
   "Timeline"; "Security"; "Code"; "DataArray"; "ArrowForward"; "Cancel";
   "DoneAll"; "Help"; "Settings";
   "motion"; "format"; "parseISO"].

Definition imported (name : string) : bool :=
  existsb (String.eqb name) imports.

(** The component names the JSX returned for an action evaluates first, in
    order (lines 1411 to 1419): [motion.div], [Paper], [Box], [Box],
    [Avatar]. *)
Definition card_header : list string :=
  ["motion"; "Paper"; "Box"; "Box"; "Avatar"].

(** What a render of the component gives: the "No Action Required" paper,
    the card, or a ReferenceError on a name that is not in scope. *)
Inductive Rendered : Type :=
| Placeholder
| CardShown
| ReferenceError (name : string).

(** A render.  Without an [action] the component returns the placeholder
    before the effect and the buttons; with one, evaluating the returned
    JSX throws on the first name that is not imported. *)
Definition render (p : Props) : Rendered :=
  match action p with
  | None => Placeholder
  | Some _ =>
      match List.find (fun name => negb (imported name)) card_header with
      | Some name => ReferenceError name
      | None => CardShown
      end
  end.

Inductive Event : Type :=
| TimerFired     (** 1000 ms elapse: the timeout set by the effect, if one
                     is set, fires *)
| ClickConfirm   (** the "Confirm & Execute" button, if it is shown *)
| ClickReject.   (** the "Reject" button, if it is shown *)

Inductive Callback : Type :=
| Confirm (a : Action)
| Reject (a : Action).

(** The condition under which the effect sets its timeout in a render. *)
Definition armed (p : Props) (a : Action) (st : State) : bool :=
  autoConfirm p && requires a && (0 <? countdown st)%Z.

(** The effect's timeout and the two [onClick] handlers as they are written,
    on the card of an action: the next state and the handler calls. *)
Definition card_step (p : Props) (st : State) (ev : Event)
    : State * list Callback :=
  match action p with
  | None => (st, [])
  | Some a =>
      match ev with
      | TimerFired =>
          if armed p a st then
            ({| countdown := countdown st - 1 |},
             if (countdown st =? 1)%Z && onConfirm p then [Confirm a] else [])
          else (st, [])
      | ClickConfirm => (st, if onConfirm p then [Confirm a] else [])
      | ClickReject => (st, if onReject p then [Reject a] else [])
      end
  end.

(** One event on the component.  The effect runs and the buttons exist only
    once a render has returned the card; a render that throws commits
    nothing. *)
Definition step (p : Props) (st : State) (ev : Event) : State * list Callback :=
  match render p with
  | CardShown => card_step p st ev
  | Placeholder | ReferenceError _ => (st, [])
  end.

Fixpoint run (p : Props) (st : State) (evs : list Event)
    : State * list Callback :=
  match evs with
  | [] => (st, [])
  | ev :: evs' =>
      let (st1, out1) := step p st ev in
      let (st2, out2) := run p st1 evs' in
      (st2, out1 ++ out2)
  end.

(** The handlers as written, over a sequence of events on a shown card. *)
Fixpoint card_run (p : Props) (st : State) (evs : list Event)
    : State * list Callback :=
  match evs with
  | [] => (st, [])
  | ev :: evs' =>
      let (st1, out1) := card_step p st ev in
      let (st2, out2) := card_run p st1 evs' in
      (st2, out1 ++ out2)
  end.

(** The handler calls the button clicks of a trace account for. *)
Definition clicked (p : Props) (a : Action) (evs : list Event) : list Callback :=
  flat_map (fun ev =>
    match ev with
    | TimerFired => []
    | ClickConfirm => if onConfirm p then [Confirm a] else []
    | ClickReject => if onReject p then [Reject a] else []
    end) evs.

(** [getConfidenceLevel(confidence).label] *)
Definition getConfidenceLevel (confidence : Q) : string :=
  if Qle_bool (9 # 10) confidence then "Very High"
  else if Qle_bool (7 # 10) confidence then "High"
  else if Qle_bool (5 # 10) confidence then "Medium"
  else "Low".

End ActionPreview.

(* ===================================================================== *)
(** ** ResultsDisplay *)
(* ===================================================================== *)

Module ResultsDisplay.

(** The fields of [results.decision] the colour depends on. *)
Record Decision : Type := {
  action_required : bool;
  confidence : Q
}.

(** [getDecisionColor(decision)]; [None] is a missing decision. *)
Definition getDecisionColor (decision : option Decision) : string :=
  match decision with
  | None => "default"
  | Some d =>
      if action_required d then
        if negb (Qle_bool (confidence d) (8 # 10)) then "success"
        else if negb (Qle_bool (confidence d) (5 # 10)) then "warning"
        else "error"
      else "info"
  end.

End ResultsDisplay.

Module PreviewSamples.
Import ActionPreview.

(** An alert that asks for confirmation. *)
Definition guarded_alert : Action := {|
  action_type := "alert";
  reason := "TSLA drops 5%";
  confidence := 95 # 100;
  requires_confirmation := Some true
|}.

Definition with_auto_confirm : Props := {|
  action := Some guarded_alert;
  onConfirm := true;
  onReject := true;
  autoConfirm := true
|}.

End PreviewSamples.

(* ===================================================================== *)
(** ** The engine behind the API: Decision Scorer *)
(* ===================================================================== *)

Module DecisionScorer.

(** Modelled from the spec: the part of a [Rule] the Decision Scorer (not
    part of the front end) reads: its id and its configured urgency, if
    any. *)
Record Rule : Type := {
  id : string;
  configured_urgency : option Q
}.

(** Modelled from the spec: the [externalSignal{confidence, urgency,
    reason}] a collaborator may hand to the missing scorer. *)
Record ExternalSignal : Type := {
  signal_confidence : Q;
  signal_urgency : Q;
  signal_reason : string
}.

(** Modelled from the spec: the [Decision] value produced by the missing
    scorer. *)
Record Decision : Type := {
  rule_id : string;
  confidence : Q;
  urgency : Q;
  reason : string;
  action_required : bool
}.

(** Modelled from the spec: the rule-independent baseline 0.5 of the
    missing scorer. *)
Definition baseline : Q := (5 # 10)%Q.

(** Modelled from the spec: the missing [score(matchResult, rule,
    externalSignal?)].  A boolean match scores 1 with no partial credit; a
    supplied signal replaces that confidence; urgency falls back on the rule's
    configured value, else 5; [action_required] compares the confidence to the
    baseline. *)
Definition score (m : ConditionEvaluator.MatchResult) (rule : Rule)
    (signal : option ExternalSignal) : Decision :=
  let c :=
    match signal with
    | Some s => signal_confidence s
    | None => if ConditionEvaluator.matched m then 1%Q else 0%Q
    end in
  {| rule_id := id rule;
     confidence := c;
     urgency :=
       match signal with
       | Some s => signal_urgency s
       | None => default (5 # 1)%Q (configured_urgency rule)
       end;
     reason :=
       match signal with
       | Some s => signal_reason s
       | None => ConditionEvaluator.detail m
       end;
     action_required := Qle_bool baseline c |}.

(** The decision as the results panel receives it. *)
Definition displayed (d : Decision) : ResultsDisplay.Decision :=
  {| ResultsDisplay.action_required := action_required d;
     ResultsDisplay.confidence := confidence d |}.

End DecisionScorer.

(* ===================================================================== *)
(** ** The engine behind the API: Safety Gate *)
(* ===================================================================== *)

Module SafetyGate.

Inductive SafetyLevel : Type := low | medium | high.

Inductive ActionType : Type := alert | api_call | data_update | workflow_trigger.

#[global] Instance ActionType_eq_dec : EqDecision ActionType.
Proof. solve_decision. Defined.

(** Modelled from the spec: the states of [Action.status] (sections 4.4 and
    4.5), kept by the engine. *)
Inductive Status : Type :=
| pending | executing | executed | failed
| requires_confirmation | confirmed | rejected | expired.

(** Modelled from the spec: the process-wide Safety Policy read by the
    missing Safety Gate.  Times are integers in one unit. *)
Record Policy : Type := {
  confidence_threshold : Q;
  rate_limit_window : Z;
  rate_limit_max : nat;
  dedup_window : Z;
  default_safety_level : SafetyLevel
}.

(** Modelled from the spec: what reaches the missing Safety Gate: a Decision
    with the action of its rule and the rule's safety level, if it sets one. *)
Record Request : Type := {
  decision : DecisionScorer.Decision;
  type : ActionType;
  parameters : gmap string string;
  safety_level : option SafetyLevel
}.

(** Modelled from the spec: an [Action] row created by the missing gate in
    the Action Store.  [parameters] is a finite map, so equal parameter sets
    are equal values (canonical form). *)
Record Action : Type := {
  a_id : nat;
  a_rule_id : string;
  a_type : ActionType;
  a_parameters : gmap string string;
  a_status : Status;
  created_at : Z
}.

(** Modelled from the spec: where an accepted action goes next; the flag says
    whether an auto-confirm countdown may run ([high] disables it). *)
Inductive Route : Type :=
| to_executor
| to_confirmation (countdown : bool).

(** Modelled from the spec: the outcomes of the missing gate. *)
Inductive Outcome : Type :=
| accepted (a : Action) (route : Route)
| blocked (why : string)
| rate_limited.

(** Modelled from the spec: the rate-limit key [(rule_id, action.type)]. *)
Definition Key : Type := string * ActionType.

Definition key_of (req : Request) : Key :=
  (DecisionScorer.rule_id (decision req), type req).

Definition action_key (a : Action) : Key := (a_rule_id a, a_type a).

(** Modelled from the spec: the content fingerprint [rule_id + action.type +
    canonicalized parameters], taken as the triple itself. *)
Definition fingerprint (a : Action) : string * ActionType * gmap string string :=
  (a_rule_id a, a_type a, a_parameters a).

Definition within (lo hi : Z) (a : Action) : bool :=
  (lo <=? created_at a)%Z && (created_at a <=? hi)%Z.

(** Modelled from the spec: the count of accepted actions for a key created
    in the closed interval from [lo] to [hi]. *)
Definition count_in (k : Key) (lo hi : Z) (store : list Action) : nat :=
  length (List.filter
            (fun a => bool_decide (action_key a = k) && within lo hi a) store).

Definition seen (req : Request) (lo hi : Z) (store : list Action) : bool :=
  existsb
    (fun a =>
       bool_decide (fingerprint a
                    = (DecisionScorer.rule_id (decision req), type req,
                       parameters req))
       && within lo hi a)
    store.

Definition level_of (pol : Policy) (req : Request) : SafetyLevel :=
  default (default_safety_level pol) (safety_level req).

(** The names of the levels, as the query form lists them. *)
Definition level_name (lvl : SafetyLevel) : string :=
  match lvl with
  | low => "low"
  | medium => "medium"
  | high => "high"
  end.

(** Modelled from the spec: the first check of the missing gate; a
    decision reaches the rate limiter when this check lets it through. *)
Definition reaches_rate_limit (pol : Policy) (req : Request) : bool :=
  Qle_bool (confidence_threshold pol)
    (DecisionScorer.confidence (decision req)).

(** Modelled from the spec: the second check of the missing gate: the
    outcome of a decision that reaches the rate limiter, [None] when it
    passes on to the next check. *)
Definition rate_limit_check (pol : Policy) (now : Z) (req : Request)
    (store : list Action) : option Outcome :=
  if (rate_limit_max pol
      <=? count_in (key_of req) (now - rate_limit_window pol) now store)%nat
  then Some rate_limited
  else None.

(** Modelled from the spec: the missing Safety Gate, its four checks in
    order on a request arriving at time [now]; [store] holds the accepted
    actions, newest first.  Check and record are one step. *)
Definition gate (pol : Policy) (now : Z) (req : Request) (store : list Action)
    : Outcome * list Action :=
  if negb (reaches_rate_limit pol req)
  then (blocked "confidence", store)
  else
  match rate_limit_check pol now req store with
  | Some outcome => (outcome, store)
  | None =>
  if seen req (now - dedup_window pol) now store
  then (blocked "duplicate", store)
  else
    let lvl := level_of pol req in
    let a := {| a_id := length store;
                a_rule_id := DecisionScorer.rule_id (decision req);
                a_type := type req;
                a_parameters := parameters req;
                a_status := match lvl with
                            | low => pending
                            | _ => requires_confirmation
                            end;
                created_at := now |} in
    (accepted a
       match lvl with
       | low => to_executor
       | medium => to_confirmation true
       | high => to_confirmation false
       end,
     a :: store)
  end.

(** Modelled from the spec: the gate serving a sequence of arrivals.  The
    gate reads the time of an arrival from its own clock, which never goes
    back: an arrival carries the time elapsed since the previous one (since
    [now] for the first). *)
Fixpoint serve (pol : Policy) (now : Z) (store : list Action)
    (arrivals : list (N * Request)) : list Outcome * list Action :=
  match arrivals with
  | [] => ([], store)
  | (elapsed, req) :: rest =>
      let now := (now + Z.of_N elapsed)%Z in
      let (o, store1) := gate pol now req store in
      let (os, store2) := serve pol now store1 rest in
      (o :: os, store2)
  end.

Definition is_accepted (o : Outcome) : bool :=
  match o with
  | accepted _ _ => true
  | _ => false
  end.


End SafetyGate.

(* ===================================================================== *)
(** ** The engine behind the API: Confirmation Manager *)
(* ===================================================================== *)

Module ConfirmationManager.

(** Modelled from the spec: the states of the missing Confirmation Manager:
    [requires_confirmation], then one of [confirmed], [rejected],
    [expired]. *)
Inductive Status : Type :=
| requires_confirmation | confirmed | rejected | expired.

Definition terminal (s : Status) : bool :=
  match s with
  | requires_confirmation => false
  | _ => true
  end.

(** Modelled from the spec: what a confirm / reject call on the missing
    manager reports: the transition it made, or the benign "already resolved"
    result with the existing terminal state. *)
Inductive Reply : Type :=
| resolved (s : Status)
| already_resolved (s : Status).

(** Modelled from the spec: an action held by the missing manager.
    [handoffs] counts how often it was handed to the Action Executor. *)
Record Held : Type := {
  status : Status;
  countdown : bool;
  handoffs : nat
}.

(** Modelled from the spec: entry into the missing manager; the countdown
    is started unless the gate disabled it. *)
Definition enter (countdown_allowed : bool) : Held :=
  {| status := requires_confirmation;
     countdown := countdown_allowed;
     handoffs := 0 |}.

(** Modelled from the spec: the missing confirm / reject operation
    ([POST /actions/confirm/{id}] with [{confirm}]).  The first call wins and
    cancels the countdown; a call on a terminal action changes nothing. *)
Definition resolve (confirm : bool) (h : Held) : Held * Reply :=
  match status h with
  | requires_confirmation =>
      if confirm
      then ({| status := confirmed; countdown := false;
               handoffs := S (handoffs h) |}, resolved confirmed)
      else ({| status := rejected; countdown := false;
               handoffs := handoffs h |}, resolved rejected)
  | s => (h, already_resolved s)
  end.

(** Modelled from the spec: expiry of the countdown of the missing manager:
    [expired], or [confirmed] when the policy asks for auto-confirm on
    timeout; nothing on a resolved action. *)
Definition timeout (auto_confirm_on_timeout : bool) (h : Held) : Held :=
  match status h with
  | requires_confirmation =>
      if countdown h then
        if auto_confirm_on_timeout
        then {| status := confirmed; countdown := false;
                handoffs := S (handoffs h) |}
        else {| status := expired; countdown := false;
                handoffs := handoffs h |}
      else h
  | _ => h
  end.

(** A sequence of confirm ([true]) / reject ([false]) calls. *)
Fixpoint resolve_all (calls : list bool) (h : Held) : Held * list Reply :=
  match calls with
  | [] => (h, [])
  | c :: rest =>
      let (h1, r) := resolve c h in
      let (h2, rs) := resolve_all rest h1 in
      (h2, r :: rs)
  end.

Definition status_name (s : Status) : string :=
  match s with
  | requires_confirmation => "requires_confirmation"
  | confirmed => "confirmed"
  | rejected => "rejected"
  | expired => "expired"
  end.

(** Modelled from the spec: the HTTP answer of the missing endpoint: both
    replies are ordinary responses whose body names the state of the action,
    never a failed request. *)
Definition respond (r : Reply)
    : JS.awaited SystemContext.Response JS.jsval :=
  match r with
  | resolved s | already_resolved s =>
      JS.Resolved {| SystemContext.data := JS.JStr (status_name s) |}
  end.

(** Modelled from the spec: the missing endpoint
    [POST /actions/confirm/{id}] on the held action the URL names: it reads
    [confirm] from the body. *)
Definition endpoint (request : SystemContext.ConfirmPost) (h : Held)
    : Held * JS.awaited SystemContext.Response JS.jsval :=
  let (h', r) := resolve (SystemContext.body_confirm request) h in
  (h', respond r).

(** One [confirmAction(actionId, confirm)] call of the provider, answered by
    the endpoint: the held action and the provider state afterwards, and what
    the call returns. *)
Definition call (actionId : string) (confirm : option bool)
    (s : Held * SystemContext.Ctx)
    : (Held * SystemContext.Ctx)
      * JS.awaited SystemContext.Response JS.jsval :=
  let (h', response) :=
    endpoint (SystemContext.confirmAction_request actionId confirm) (fst s) in
  let (ctx', result) :=
    SystemContext.confirmAction response confirm (snd s) in
  ((h', ctx'), result).

(** A sequence of such calls and what each returns. *)
Fixpoint call_all (actionId : string) (confirms : list (option bool))
    (s : Held * SystemContext.Ctx)
    : (Held * SystemContext.Ctx)
      * list (JS.awaited SystemContext.Response JS.jsval) :=
  match confirms with
  | [] => (s, [])
  | c :: rest =>
      let (s1, r) := call actionId c s in
      let (s2, rs) := call_all actionId rest s1 in
      (s2, r :: rs)
  end.

(** Modelled from the spec: what can happen to a held action: an explicit
    confirm / reject call, or the expiry of its countdown. *)
Inductive Event : Type :=
| Call (confirm : bool)
| Expiry.

Definition handle (auto_confirm_on_timeout : bool) (h : Held) (ev : Event)
    : Held :=
  match ev with
  | Call confirm => fst (resolve confirm h)
  | Expiry => timeout auto_confirm_on_timeout h
  end.

(** The first explicit call among the events, if any. *)
Fixpoint first_call (evs : list Event) : option bool :=
  match evs with
  | [] => None
  | Call confirm :: _ => Some confirm
  | Expiry :: rest => first_call rest
  end.

(** Modelled from the spec: the hand-over of an accepted action from the gate:
    [medium] and [high] enter the manager, [high] with the countdown
    disabled; [low] goes to the executor. *)
Definition hand_over (route : SafetyGate.Route) : option Held :=
  match route with
  | SafetyGate.to_executor => None
  | SafetyGate.to_confirmation countdown_allowed =>
      Some (enter countdown_allowed)
  end.

End ConfirmationManager.

Module GateSamples.
Import SafetyGate.

(** One action per minute and key, confidence at least one half. *)
Definition policy : Policy := {|
  confidence_threshold := 5 # 10;
  rate_limit_window := 60;
  rate_limit_max := 1;
  dedup_window := 0;
  default_safety_level := low
|}.

(** The same policy for a deployment whose rules default to [high]. *)
Definition high_policy : Policy := {|
  confidence_threshold := 5 # 10;
  rate_limit_window := 60;
  rate_limit_max := 1;
  dedup_window := 0;
  default_safety_level := high
|}.

Definition request (c : Q) : Request := {|
  decision := {| DecisionScorer.rule_id := "r1";
                 DecisionScorer.confidence := c;
                 DecisionScorer.urgency := 5 # 1;
                 DecisionScorer.reason := "matched";
                 DecisionScorer.action_required :=
                   Qle_bool DecisionScorer.baseline c |};
  type := alert;
  parameters := ∅;
  safety_level := None
|}.

End GateSamples.

Module RulesSamples.
Import JS SystemContext.

Definition rule_a : obj := <["id" := JStr "a"]> {["enabled" := JBool true]}.
Definition rule_b : obj := <["id" := JStr "b"]> {["enabled" := JBool true]}.

(** [{ enabled: false }] *)
Definition disable : obj := {["enabled" := JBool false]}.

Definition ctx : Ctx := {|
  dataStreams := [];
  actions := [];
  rules := [rule_a; rule_b; rule_a];
  snackbar := []
|}.

Definition ok : Response := {| data := JNull |}.

(** Two data streams and an update for the second. *)
Definition streams : list obj :=
  [ <["id" := JStr "s1"]> {["value" := JNum 1]};
    <["id" := JStr "s2"]> {["value" := JNum 2]} ].

Definition tick : obj := <["id" := JStr "s2"]> {["value" := JNum 5]}.

End RulesSamples.

(* ===================================================================== *)
(** ** String methods used by the forms *)
(* ===================================================================== *)

Module Text.
Import JS.

(** [s.split(sep)] for a separator of one code unit: the pieces between its
    occurrences; there is always at least one piece. *)
Fixpoint split (sep : N) (s : utf16) : list utf16 :=
  match s with
  | [] => [[]]
  | c :: rest =>
      if N.eqb c sep then [] :: split sep rest
      else
        match split sep rest with
        | [] => [[c]]
        | w :: ws => (c :: w) :: ws
        end
  end.

(** [xs.join(sep)] *)
Fixpoint join (sep : utf16) (xs : list utf16) : utf16 :=
  match xs with
  | [] => []
  | [x] => x
  | x :: rest => x ++ sep ++ join sep rest
  end.

(** A string is free of a code unit. *)
Definition lacks (c : N) (s : utf16) : Prop := ~ In c s.

End Text.

(* ===================================================================== *)
(** ** RuleCreator: the keywords field *)
(* ===================================================================== *)

Module KeywordsField.
Import JS Text RuleCreator.

(** [value.split(',').map(k => k.trim()).filter(k => k)] *)
Definition keywordArray (value : utf16) : list utf16 :=
  List.filter truthy_utf16 (List.map trim (split (chr ",") value)).

(** The rule being edited together with the [keywords] text state. *)
Record Form : Type := {
  form_rule : Rule;
  form_keywords : utf16
}.

(** [handleKeywordsChange] on the text typed into the field. *)
Definition handleKeywordsChange (value : utf16) (f : Form) : Form :=
  {| form_rule :=
       handleConditionChange (set_keywords (keywordArray value)) (form_rule f);
     form_keywords := value |}.

(** [loadTemplate(template)]; an empty join is already [''] *)
Definition loadTemplate (template : Rule) : Form :=
  {| form_rule := template;
     form_keywords := join (lit ", ") (keywords (condition template)) |}.

(** The [onDelete] of the chip at [index]: [splice(index, 1)] on a copy. *)
Definition deleteChip (index : nat) (f : Form) : Form :=
  let newKeywords := delete index (keywords (condition (form_rule f))) in
  {| form_rule := handleConditionChange (set_keywords newKeywords) (form_rule f);
     form_keywords := join (lit ", ") newKeywords |}.

(** A keyword as the field produces it: not empty, nothing to trim, no
    comma. *)
Definition clean (k : utf16) : Prop :=
  k <> [] /\ trim k = k /\ lacks (chr ",") k.

(** The text and the chips show the same keywords. *)
Definition in_sync (f : Form) : Prop :=
  keywordArray (form_keywords f) = keywords (condition (form_rule f)).

End KeywordsField.

(* ===================================================================== *)
(** ** QueryInput *)
(* ===================================================================== *)

Module QueryInput.
Import JS.

Record State : Type := {
  query : utf16;
  contextType : string;
  timeRange : string;
  safetyLevel : string;
  actionThreshold : Z;
  includeHistory : bool;
  selectedSuggestion : option utf16
}.

(** The [useState] defaults. *)
Definition initial : State := {|
  query := [];
  contextType := "auto";
  timeRange := "6h";
  safetyLevel := "medium";
  actionThreshold := 75;
  includeHistory := true;
  selectedSuggestion := None
|}.

(** The object handed to [onSubmit]. *)
Record QueryData : Type := {
  d_query : utf16;
  context_type : string;
  time_range : string;
  safety_level : string;
  action_threshold : Z;
  include_history : bool
}.

(** The [value]s of [safetyLevels]. *)
Definition safetyLevels : list string := ["low"; "medium"; "high"].

(** [handleSubmit]: the [onSubmit] calls it makes. *)
Definition handleSubmit (isLoading : bool) (st : State) : list QueryData :=
  if truthy_utf16 (trim (query st)) && negb isLoading then
    [{| d_query := trim (query st);
        context_type := contextType st;
        time_range := timeRange st;
        safety_level := safetyLevel st;
        action_threshold := actionThreshold st;
        include_history := includeHistory st |}]
  else [].

(** The names the module of the component imports (lines 799 to 845). *)
Definition imports : list string :=
  ["React"; "useState"; "useRef"; "useEffect";
   "Box"; "Paper"; "TextField"; "IconButton"; "Button"; "Chip"; "Tooltip";
   "Menu"; "MenuItem"; "Divider"; "Typography"; "InputAdornment";
   "Autocomplete"; "FormControl"; "InputLabel"; "Select"; "Stack"; "Slider";
   "Switch"; "FormControlLabel"; "Alert"; "Collapse"; "CircularProgress";
   "Send"; "Mic"; "AttachFile"; "History"; "TrendingUp"; "Timeline";
   "DataArray"; "Security"; "Code"; "MoreVert"; "Clear"; "Save"; "SmartToy";
   "AutoFixHigh"; "Psychology"; "Search"; "FilterAlt"; "Timer";
   "motion"; "AnimatePresence"].

Definition imported (name : string) : bool :=
  existsb (String.eqb name) imports.

(** The component names a render evaluates, in order of first appearance, up
    to the first of the advanced options: the icons of [contextTypes] (lines
    867 to 872), then the returned JSX (lines 948 to 1087).  The children of
    [Collapse] are evaluated whether it is open or not. *)
Definition rendered_names : list string :=
  ["Psychology"; "TrendingUp"; "Timeline"; "Code"; "Security"; "DataArray";
   "Paper"; "Box"; "TextField"; "InputAdornment"; "Search"; "Tooltip";
   "IconButton"; "Clear"; "Typography"; "Stack"; "Mic"; "AttachFile";
   "History"; "MoreVert"; "Button"; "CircularProgress"; "Send"; "Menu";
   "MenuItem"; "Save"; "AutoFixHigh"; "Divider"; "SmartToy"; "Collapse";
   "Grid"].

(** What a render of the component gives: the form, or a ReferenceError on
    the first name that is not in scope. *)
Inductive Rendered : Type :=
| FormShown
| ReferenceError (name : string).

Definition render : Rendered :=
  match List.find (fun name => negb (imported name)) rendered_names with
  | Some name => ReferenceError name
  | None => FormShown
  end.

(** The [onSubmit] calls of a submit of the form, whose [onSubmit] is
    [handleSubmit]: there is a form only once a render has returned it. *)
Definition submit (isLoading : bool) (st : State) : list QueryData :=
  match render with
  | FormShown => handleSubmit isLoading st
  | ReferenceError _ => []
  end.

(** [handleKeyDown] on a key with the state of the Ctrl modifier. *)
Definition handleKeyDown (key : string) (ctrlKey : bool) (isLoading : bool)
    (st : State) : list QueryData :=
  if String.eqb key "Enter" && ctrlKey then handleSubmit isLoading st else [].

Definition handleSuggestionClick (suggestion : utf16) (st : State) : State :=
  {| query := suggestion;
     contextType := contextType st;
     timeRange := timeRange st;
     safetyLevel := safetyLevel st;
     actionThreshold := actionThreshold st;
     includeHistory := includeHistory st;
     selectedSuggestion := Some suggestion |}.

Definition handleClear (st : State) : State :=
  {| query := [];
     contextType := contextType st;
     timeRange := timeRange st;
     safetyLevel := safetyLevel st;
     actionThreshold := actionThreshold st;
     includeHistory := includeHistory st;
     selectedSuggestion := None |}.

(** The [value] shown by the safety slider. *)
Definition sliderValue (level : string) : Z :=
  if String.eqb level "low" then 0
  else if String.eqb level "medium" then 50
  else 100.

(** The slider's [onChange]. *)
Definition levelOfSlider (value : Z) : string :=
  if (value =? 0)%Z then "low"
  else if (value =? 50)%Z then "medium"
  else "high".

Definition onSliderChange (value : Z) (st : State) : State :=
  {| query := query st;
     contextType := contextType st;
     timeRange := timeRange st;
     safetyLevel := levelOfSlider value;
     actionThreshold := actionThreshold st;
     includeHistory := includeHistory st;
     selectedSuggestion := selectedSuggestion st |}.

(** What the user does to the form. *)
Inductive Edit : Type :=
| Type_ (text : utf16)
| Suggest (suggestion : utf16)
| Clear
| Slide (value : Z).

Definition edit (e : Edit) (st : State) : State :=
  match e with
  | Type_ text =>
      {| query := text;
         contextType := contextType st;
         timeRange := timeRange st;
         safetyLevel := safetyLevel st;
         actionThreshold := actionThreshold st;
         includeHistory := includeHistory st;
         selectedSuggestion := selectedSuggestion st |}
  | Suggest s => handleSuggestionClick s st
  | Clear => handleClear st
  | Slide v => onSliderChange v st
  end.

End QueryInput.

Module KeywordsEdits.
Import JS Text RuleCreator KeywordsField.

(** What the user does to the keywords of a loaded form. *)
Inductive FormEdit : Type :=
| Typed (value : utf16)
| ChipDeleted (index : nat).

Definition applyEdit (f : Form) (e : FormEdit) : Form :=
  match e with
  | Typed value => handleKeywordsChange value f
  | ChipDeleted index => deleteChip index f
  end.

(** Text and chips agree and every chip is a clean keyword. *)
Definition settled (f : Form) : Prop :=
  in_sync f /\ Forall clean (keywords (condition (form_rule f))).

(** Only white space and commas. *)
Definition separators_only (value : utf16) : Prop :=
  Forall (fun c => is_space c = true \/ c = chr ",") value.

End KeywordsEdits.

(* ===================================================================== *)
(** ** ActionLog: the table of actions on the dashboard *)
(* ===================================================================== *)

Module ActionLog.
Import JS.

(** [xs.slice(start, stop)] for [0 <= start] and [0 <= stop]. *)
Definition slice {A} (start stop : nat) (xs : list A) : list A :=
  take (stop - start) (drop start xs).

(** [paginatedActions] (and [paginatedRules] of the rule list). *)
Definition paginated {A} (page rowsPerPage : nat) (filtered : list A) : list A :=
  slice (page * rowsPerPage) (page * rowsPerPage + rowsPerPage) filtered.

(** [a.status === s] *)
Definition has_status (s : string) (a : obj) : bool :=
  strict_eq (get a "status") (JStr s).

Record Stats : Type := {
  total : nat;
  executed : nat;
  failed : nat;
  pending : nat;
  successRate : jsval
}.

(** [stats]; [toFixed1 x] stands for [x.toFixed(1)]. *)
Definition stats (toFixed1 : Q -> string) (actions : list obj) : Stats :=
  let total := length actions in
  let executed := length (List.filter (has_status "executed") actions) in
  let failed := length (List.filter (has_status "failed") actions) in
  let pending :=
    length (List.filter
              (fun a => has_status "pending" a
                        || has_status "requires_confirmation" a) actions) in
  {| total := total;
     executed := executed;
     failed := failed;
     pending := pending;
     successRate :=
       if (0 <? total)%nat
       then JStr (toFixed1 (inject_Z (Z.of_nat executed)
                            / inject_Z (Z.of_nat total) * 100)%Q)
       else JNum 0 |}.

(** [handleExpand(actionId)]: the next [expandedAction]. *)
Definition handleExpand (actionId expandedAction : jsval) : jsval :=
  if strict_eq expandedAction actionId then JNull else actionId.

(** The id a row hands to [handleExpand]: [action.action_id || action.id]. *)
Definition row_id (action : obj) : jsval :=
  or_else (get action "action_id") (get action "id").

(** Whether the row of [action] shows its details:
    [expandedAction === action.action_id]. *)
Definition expanded (expandedAction : jsval) (action : obj) : bool :=
  strict_eq expandedAction (get action "action_id").

(** The early return of [renderActionDetails]:
    [!expandedAction === action.action_id]. *)
Definition details_suppressed (expandedAction : jsval) (action : obj) : bool :=
  strict_eq (JBool (negb (truthy expandedAction))) (get action "action_id").

(** [useState(null)] of [expandedAction]. *)
Definition nothing_expanded : jsval := JNull.

(** Clicks on the expand buttons of the rows of [actions], one after the
    other, starting from [expandedAction]. *)
Definition click_rows (actions : list obj) (expandedAction : jsval) : jsval :=
  foldl (fun expandedAction action => handleExpand (row_id action) expandedAction)
    expandedAction actions.

Record Sorting : Type := {
  sortField : string;
  sortDirection : string
}.

(** [handleSort(field)] *)
Definition handleSort (field : string) (s : Sorting) : Sorting :=
  if String.eqb (sortField s) field then
    {| sortField := sortField s;
       sortDirection :=
         if String.eqb (sortDirection s) "asc" then "desc" else "asc" |}
  else {| sortField := field; sortDirection := "desc" |}.

End ActionLog.

(* ===================================================================== *)
(** ** SystemContext: queries, errors, rule creation, system toggle *)
(* ===================================================================== *)

Module Provider.
Import JS SystemContext.

Record Metrics : Type := {
  queryCount : nat;
  actionCount : nat;
  avgLatency : Q;
  errorRate : Q
}.

Record Components : Type := {
  dataPipeline : string;
  ragEngine : string;
  actionEngine : string;
  vectorStore : string
}.

Record SystemStatus : Type := {
  isActive : bool;
  lastUpdated : string;
  lastAction : jsval;
  components : Components;
  metrics : Metrics
}.

(** An entry of [queries]: [{ ...queryData, response, timestamp }]. *)
Record QueryEntry : Type := {
  queryData : QueryInput.QueryData;
  response : jsval;
  timestamp : string
}.

Record ErrorObject : Type := {
  error_message : string
}.

Record State : Type := {
  ctx : Ctx;
  systemStatus : SystemStatus;
  queries : list QueryEntry;
  isLoading : bool;
  errors : list ErrorObject
}.

(** The [useState] defaults; [now] is the clock at mount. *)
Definition initial (now : string) : State := {|
  ctx := {| dataStreams := []; actions := []; rules := []; snackbar := [] |};
  systemStatus := {|
    isActive := true;
    lastUpdated := now;
    lastAction := JNull;
    components := {| dataPipeline := "healthy"; ragEngine := "healthy";
                     actionEngine := "healthy"; vectorStore := "healthy" |};
    metrics := {| queryCount := 0; actionCount := 0;
                  avgLatency := 0; errorRate := 0 |}
  |};
  queries := [];
  isLoading := false;
  errors := []
|}.

Definition with_ctx (f : Ctx -> Ctx) (st : State) : State := {|
  ctx := f (ctx st);
  systemStatus := systemStatus st;
  queries := queries st;
  isLoading := isLoading st;
  errors := errors st
|}.

Definition setIsLoading (b : bool) (st : State) : State := {|
  ctx := ctx st;
  systemStatus := systemStatus st;
  queries := queries st;
  isLoading := b;
  errors := errors st
|}.

Definition setQueries (f : list QueryEntry -> list QueryEntry)
    (st : State) : State := {|
  ctx := ctx st;
  systemStatus := systemStatus st;
  queries := f (queries st);
  isLoading := isLoading st;
  errors := errors st
|}.

Definition setSystemStatus (f : SystemStatus -> SystemStatus)
    (st : State) : State := {|
  ctx := ctx st;
  systemStatus := f (systemStatus st);
  queries := queries st;
  isLoading := isLoading st;
  errors := errors st
|}.

Definition setErrors (f : list ErrorObject -> list ErrorObject)
    (st : State) : State := {|
  ctx := ctx st;
  systemStatus := systemStatus st;
  queries := queries st;
  isLoading := isLoading st;
  errors := f (errors st)
|}.

(** The [context] argument [processQuery] builds from [queryData]. *)
Record QueryContext : Type := {
  context_type : string;
  time_range : string;
  safety_level : string
}.

(** The body of [POST /api/v1/query]: [{ query, context }]. *)
Record QueryRequest : Type := {
  body_query : utf16;
  body_context : QueryContext
}.

Definition queryRequest (d : QueryInput.QueryData) : QueryRequest := {|
  body_query := QueryInput.d_query d;
  body_context := {|
    context_type := QueryInput.context_type d;
    time_range := QueryInput.time_range d;
    safety_level := QueryInput.safety_level d
  |}
|}.

(** [metrics: { ...prev.metrics, queryCount: prev.metrics.queryCount + 1 }] *)
Definition countQuery (s : SystemStatus) : SystemStatus := {|
  isActive := isActive s;
  lastUpdated := lastUpdated s;
  lastAction := lastAction s;
  components := components s;
  metrics := {| queryCount := queryCount (metrics s) + 1;
                actionCount := actionCount (metrics s);
                avgLatency := avgLatency (metrics s);
                errorRate := errorRate (metrics s) |}
|}.

(** [processQuery(queryData)]: [post] is [apiService.processQuery] as the
    network answers it, [now] the clock when the answer arrives. *)
Definition processQuery (now : string)
    (post : QueryRequest -> awaited Response jsval)
    (d : QueryInput.QueryData) (st : State) : State * awaited jsval jsval :=
  let st := setIsLoading true st in
  match post (queryRequest d) with
  | Resolved r =>
      let st :=
        setQueries (fun prev =>
          {| queryData := d; response := data r; timestamp := now |}
          :: slice0 49 prev) st in
      let st := setSystemStatus countQuery st in
      (setIsLoading false st, Resolved (data r))
  | Rejected error =>
      (setIsLoading false
         (with_ctx (enqueue "Failed to process query" "error") st),
       Rejected error)
  end.

(** [addError(error)] *)
Definition addError (error : ErrorObject) (st : State) : State :=
  with_ctx (enqueue (error_message error) "error")
    (setErrors (fun prev => error :: slice0 9 prev) st).

(** [clearErrors()] *)
Definition clearErrors (st : State) : State := setErrors (fun _ => []) st.

(** [createRule(ruleData)]: [settled] is the settled [apiService.createRule]
    call, resolving to the created rule [response.data]. *)
Definition createRule (settled : awaited obj jsval) (st : Ctx)
    : Ctx * awaited obj jsval :=
  match settled with
  | Resolved created =>
      (enqueue "Rule created successfully" "success"
         (setRules (fun prev => created :: prev) st),
       Resolved created)
  | Rejected error =>
      (enqueue "Failed to create rule" "error" st, Rejected error)
  end.

(** The methods of the [apiService] object of services/api.js. *)
Definition apiService : list string :=
  ["getStatus"; "getStats"; "getDataStreams"; "getDataPoints";
   "getActionHistory"; "confirmAction"; "processQuery"; "getRules";
   "createRule"; "updateRule"; "deleteRule"; "testRule"; "getLogs";
   "getMetrics"; "uploadDataSource"].

(** [await apiService[method](...)]: calling a property that is not there
    throws a TypeError before anything is sent; otherwise the call settles as
    the network decides. *)
Definition invoke {R} (method : string) (settled : awaited R jsval)
    : awaited R jsval :=
  if bool_decide (In method apiService) then settled
  else Rejected (JStr "TypeError").

(** [toggleSystem()] *)
Definition toggleSystem (now : string) (settled : awaited Response jsval)
    (st : State) : State :=
  let newStatus := negb (isActive (systemStatus st)) in
  match invoke "updateSystemStatus" settled with
  | Resolved _ =>
      with_ctx
        (enqueue (if newStatus then "System activated" else "System paused")
           (if newStatus then "success" else "warning"))
        (setSystemStatus (fun prev =>
           {| isActive := newStatus;
              lastUpdated := now;
              lastAction := lastAction prev;
              components := components prev;
              metrics := metrics prev |}) st)
  | Rejected _ =>
      with_ctx (enqueue "Failed to update system status" "error") st
  end.

(** The operations of the provider on queries and errors. *)
Inductive Op : Type :=
| Query (now : string) (post : QueryRequest -> awaited Response jsval)
    (d : QueryInput.QueryData)
| AddError (error : ErrorObject)
| ClearErrors
| Toggle (now : string) (settled : awaited Response jsval).

Definition apply (st : State) (op : Op) : State :=
  match op with
  | Query now post d => fst (processQuery now post d st)
  | AddError e => addError e st
  | ClearErrors => clearErrors st
  | Toggle now settled => toggleSystem now settled st
  end.

(** A query operation whose request the network answered. *)
Definition answered (op : Op) : bool :=
  match op with
  | Query _ post d =>
      match post (queryRequest d) with
      | Resolved _ => true
      | Rejected _ => false
      end
  | _ => false
  end.

(** Stream ids are pairwise different under [===]. *)
Definition distinct_ids (streams : list obj) : Prop :=
  forall i j a b, i < j -> streams !! i = Some a -> streams !! j = Some b ->
    strict_eq (get a "id") (get b "id") = false.

(** An id that [===] itself: anything but [NaN]. *)
Definition comparable (v : jsval) : Prop := strict_eq v v = true.

End Provider.

(* ===================================================================== *)
(** ** services/api.js: the axios instance and its interceptors *)
(* ===================================================================== *)

Module Api.
Import JS.

(** [localStorage]: [getItem] of a missing key is [null]. *)
Abbreviation Storage := (gmap string string).

(** A request config: the url, [headers.Authorization] if set, and the
    [_retry] mark the response interceptor leaves on it. *)
Record Config : Type := {
  url : string;
  authorization : option string;
  _retry : bool
}.

(** What goes over the network. *)
Inductive NetCall : Type :=
| Sent (config : Config)
| RefreshPosted (refresh_token : string).

(** The browser as the interceptors touch it: [localStorage],
    [window.location.href], and the network calls made so far. *)
Record World : Type := {
  storage : Storage;
  location : string;
  calls : list NetCall
}.

(** A rejection: the error of a request, with [error.response?.status] and
    [error.config], or the error of the refresh call. *)
Inductive Error : Type :=
| ResponseError (status : option nat) (config : Config)
| RefreshError (status : option nat).

(** The request interceptor. *)
Definition attachToken (s : Storage) (config : Config) : Config :=
  match s !! "access_token" with
  | Some token =>
      if truthy_str token then
        {| url := url config;
           authorization := Some (String.append "Bearer " token);
           _retry := _retry config |}
      else config
  | None => config
  end.

Definition record (c : NetCall) (w : World) : World :=
  {| storage := storage w; location := location w; calls := calls w ++ [c] |}.

Section Network.

(** The server: how it settles a request, by status when it fails ([None]
    when there is no response at all). *)
Variable transport : Config -> awaited jsval (option nat).

(** [POST /api/v1/auth/refresh]: the new access token, or a failure. *)
Variable refresh : string -> awaited string (option nat).

(** [api(config)]: request interceptor, transport, response interceptor.
    The retry of the source is the recursive call; [fuel] bounds it. *)
Fixpoint api (fuel : nat) (w : World) (config : Config)
    : option (World * awaited jsval Error) :=
  match fuel with
  | 0 => None
  | S fuel' =>
      let c := attachToken (storage w) config in
      let w := record (Sent c) w in
      match transport c with
      | Resolved r => Some (w, Resolved r)
      | Rejected status =>
          if bool_decide (status = Some 401) && negb (_retry c) then
            let c := {| url := url c; authorization := authorization c;
                        _retry := true |} in
            match storage w !! "refresh_token" with
            | Some refreshToken =>
                if truthy_str refreshToken then
                  let w := record (RefreshPosted refreshToken) w in
                  match refresh refreshToken with
                  | Resolved access_token =>
                      let w :=
                        {| storage := <["access_token" := access_token]> (storage w);
                           location := location w;
                           calls := calls w |} in
                      api fuel' w
                        {| url := url c;
                           authorization :=
                             Some (String.append "Bearer " access_token);
                           _retry := true |}
                  | Rejected refreshStatus =>
                      Some ({| storage := ∅;
                               location := "/login";
                               calls := calls w |},
                            Rejected (RefreshError refreshStatus))
                  end
                else Some (w, Rejected (ResponseError status c))
            | None => Some (w, Rejected (ResponseError status c))
            end
          else Some (w, Rejected (ResponseError status c))
      end
  end.

End Network.

Definition is_sent (c : NetCall) : bool :=
  match c with
  | Sent _ => true
  | RefreshPosted _ => false
  end.

End Api.

(* ===================================================================== *)
(** ** contexts/AuthContent.jsx and the route guards *)
(* ===================================================================== *)

Module Auth.
Import JS.

Record User : Type := {
  id : string;
  email : string;
  name : string;
  role : string;
  permissions : option (list string);
  avatar : string
}.

(** The provider state with the browser storage and the current path. *)
Record State : Type := {
  user : option User;
  loading : bool;
  error : option string;
  storage : Api.Storage;
  path : string
}.

(** [hasPermission(permission)] *)
Definition hasPermission (u : option User) (permission : string) : bool :=
  match u with
  | None => false
  | Some u =>
      match permissions u with
      | Some ps => existsb (String.eqb permission) ps
      | None => false
      end
      || String.eqb (role u) "admin"
  end.

(** [isAuthenticated: !!user] *)
Definition isAuthenticated (st : State) : bool :=
  match user st with
  | Some _ => true
  | None => false
  end.

(** [logout()] *)
Definition logout (st : State) : State := {|
  user := None;
  loading := loading st;
  error := error st;
  storage :=
    delete "refresh_token" (delete "user_data" (delete "access_token" (storage st)));
  path := "/login"
|}.

Section Login.

(** [JSON.stringify] on a user and [encodeURIComponent]. *)
Variable stringify : User -> string.
Variable encodeURIComponent : string -> string.

Definition mockUser (email : string) : User := {|
  id := "user_123";
  email := email;
  name := "Demo User";
  role := "admin";
  permissions := Some ["read"; "write"; "execute"];
  avatar :=
    String.append "https://ui-avatars.com/api/?name="
      (String.append (encodeURIComponent email) "&background=1976d2&color=fff")
|}.

(** [login(email, password)]; it resolves to [{ success: true }]. *)
Definition login (email password : string) (st : State) : State := {|
  user := Some (mockUser email);
  loading := false;
  error := None;
  storage :=
    <["user_data" := stringify (mockUser email)]>
      (<["access_token" := "mock_jwt_token"]> (storage st));
  path := "/dashboard"
|}.

End Login.

(** What a route guard renders, or the ReferenceError its render throws on
    a name that is not in scope. *)
Inductive View : Type :=
| LoadingView
| Nothing
| AccessDenied
| NavigateTo (target : string)
| Children
| ReferenceError (name : string).

(** [requiredPermissions.every(permission => hasPermission(permission))] *)
Definition hasRequiredPermissions (st : State) (required : list string) : bool :=
  forallb (hasPermission (user st)) required.

(** [ProtectedRoute] of AuthContent.jsx. *)
Definition ProtectedRoute (st : State) (required : list string) : View :=
  if loading st then LoadingView
  else if negb (isAuthenticated st) then Nothing
  else if (0 <? length required)%nat && negb (hasRequiredPermissions st required)
  then AccessDenied
  else Children.

(** The names in scope in the routes file: what it imports and what it
    declares at top level. *)
Definition routes_scope : list string :=
  ["React"; "lazy"; "Suspense"; "Routes"; "Route"; "Navigate";
   "LoadingSpinner";
   "Dashboard"; "QueryInterface"; "RulesManager"; "Settings"; "Login";
   "Register"; "Layout"; "Sidebar"; "Header"; "NotFound"; "Unauthorized";
   "LoadingFallback"; "AppRoutes"; "ProtectedRoute"; "navigationRoutes";
   "settingsRoutes"; "getRouteConfig"; "isActiveRoute"].

Definition in_routes_scope (name : string) : bool :=
  existsb (String.eqb name) routes_scope.

(** [ProtectedRoute] of the routes file.  Its first two statements call
    [useAuth] and [useLocation]; a call of a name that is not in scope
    throws before anything is rendered. *)
Definition RouteGuard (st : State) (required : list string) : View :=
  match List.find (fun name => negb (in_routes_scope name))
          ["useAuth"; "useLocation"] with
  | Some name => ReferenceError name
  | None =>
      if loading st then LoadingView
      else if negb (isAuthenticated st) then NavigateTo "/login"
      else if (0 <? length required)%nat then
        if negb (hasRequiredPermissions st required)
        then NavigateTo "/unauthorized"
        else Children
      else Children
  end.

(** [isActiveRoute(currentPath, routePath)] *)
Definition isActiveRoute (currentPath routePath : string) : bool :=
  if String.eqb routePath "/" then String.eqb currentPath "/"
  else String.prefix routePath currentPath.

End Auth.

Module ApiSamples.
Import JS Api.

(** A server that accepts the token "fresh" only. *)
Definition server (c : Config) : awaited jsval (option nat) :=
  match authorization c with
  | Some h => if String.eqb h "Bearer fresh" then Resolved (JStr "ok")
              else Rejected (Some 401)
  | None => Rejected (Some 401)
  end.

(** A refresh endpoint that trades "r1" for "fresh". *)
Definition refresher (refresh_token : string) : awaited string (option nat) :=
  if String.eqb refresh_token "r1" then Resolved "fresh"
  else Rejected (Some 401).

Definition stale : World := {|
  storage := <["refresh_token" := "r1"]> {["access_token" := "stale"]};
  location := "/dashboard";
  calls := []
|}.

Definition getRules : Config :=
  {| url := "/api/v1/rules"; authorization := None; _retry := false |}.

End ApiSamples.

(* ===================================================================== *)
(** ** Properties *)
(* ===================================================================== *)

Section StoreHistories.
Import JS SystemStore.

Lemma slice0_length {A} (n : nat) (xs : list A) : length (slice0 n xs) <= n.
Proof. unfold slice0. rewrite length_take. lia. Qed.

Lemma prepend_slice0_length {A} (n : nat) (x : A) (xs : list A) :
  length (x :: slice0 n xs) <= S n.
Proof. cbn [length]. pose proof (slice0_length n xs). lia. Qed.

Lemma apply_bounded (st : State) (op : Op) :
  keeps_histories op = true -> bounded st -> bounded (apply st op).
Proof.
  intros Hop (Ha & Hd & Hq).
  destruct op as [|x|x|x|status| | |]; unfold bounded;
    cbn [apply actions dataStreams queries toggleSystem addDataStream addAction
         addQuery updateSystemStatus setAutoConfirm updateNotificationPrefs
         clearHistory];
    repeat split; try assumption; try (cbn [length]; lia);
    try apply (prepend_slice0_length _ x).
  all: cbn [keeps_histories] in Hop; unfold history_free in Hop;
    destruct (p_dataStreams status), (p_actions status), (p_queries status);
    try discriminate Hop; assumption.
Qed.

Lemma run_bounded (ops : list Op) (st : State) :
  forallb keeps_histories ops = true -> bounded st -> bounded (run ops st).
Proof.
  revert st. induction ops as [|op ops IH]; intros st Hops Hst; [exact Hst|].
  cbn [forallb] in Hops. apply andb_true_iff in Hops as [Hop Hops].
  apply (IH (apply st op) Hops). by apply apply_bounded.
Qed.

(** C9, as stated, fails on [updateSystemStatus]: it copies every key of its
    payload, so one call with 101 actions in the payload takes the initial
    store to a state with 101 actions. *)
Lemma store_histories_unbounded_counterexample :
  length (actions (run [UpdateSystemStatus StoreSamples.flood] initial)) = 101 /\
  ~ bounded (run [UpdateSystemStatus StoreSamples.flood] initial).
Proof.
  split; [reflexivity|]. intros (Ha & _). vm_compute in Ha. lia.
Qed.

(** C9, amended.  From the initial store, every sequence of store calls in
    which no [updateSystemStatus] payload carries a history key leads to a
    state with at most 100 actions, 50 data streams and 50 queries; and in
    such a state [addAction], [addDataStream] and [addQuery] each give the new
    entry followed by the first 99 (49, 49) entries of the previous list, and
    leave the other two histories as they are.  The provider's
    [handleActionExecuted] prepends in the same way. *)
Theorem store_histories_bounded (ops : list Op) :
  forallb keeps_histories ops = true ->
  let st := run ops initial in
  bounded st /\
  (forall x,
      actions (addAction x st) = x :: take 99 (actions st) /\
      dataStreams (addAction x st) = dataStreams st /\
      queries (addAction x st) = queries st) /\
  (forall x,
      dataStreams (addDataStream x st) = x :: take 49 (dataStreams st) /\
      actions (addDataStream x st) = actions st /\
      queries (addDataStream x st) = queries st) /\
  (forall x,
      queries (addQuery x st) = x :: take 49 (queries st) /\
      actions (addQuery x st) = actions st /\
      dataStreams (addQuery x st) = dataStreams st) /\
  (forall action prev,
      SystemContext.handleActionExecuted_updater action prev
        = action :: take 99 prev).
Proof.
  intros Hops st. split.
  - apply run_bounded; [exact Hops|]. unfold bounded; cbn; lia.
  - repeat split.
Qed.

Lemma store_histories_bounded_witness :
  bounded (run [AddQuery (JStr "q1");
                UpdateSystemStatus StoreSamples.connected;
                AddAction (JStr "a1")] initial).
Proof.
  exact (proj1 (store_histories_bounded
                  [AddQuery (JStr "q1");
                   UpdateSystemStatus StoreSamples.connected;
                   AddAction (JStr "a1")] eq_refl)).
Defined.

(** Whatever the store holds, an add operation leaves its own history within
    the bound: the first [addAction] after a flooding status update cuts the
    actions back to 100. *)
Lemma add_restores_bound (x : jsval) (st : State) :
  length (actions (addAction x st)) <= 100 /\
  length (dataStreams (addDataStream x st)) <= 50 /\
  length (queries (addQuery x st)) <= 50.
Proof. repeat split; apply prepend_slice0_length. Qed.

(** The bound of [addAction] is reached: the 101st action pushes the oldest
    one out. *)
Example addAction_drops_oldest :
  let full := fold_right addAction initial (List.map JRef (seq 0 100)) in
  length (actions full) = 100 /\
  length (actions (addAction (JRef 100) full)) = 100 /\
  last (actions full) = Some (JRef 99) /\
  last (actions (addAction (JRef 100) full)) = Some (JRef 98).
Proof. vm_compute. repeat split. Qed.

End StoreHistories.
Section RulesList.
Import JS SystemContext.

Lemma updateRule_updater_lookup ruleId updates (prev : list obj) i :
  updateRule_updater ruleId updates prev !! i =
  (fun rule => if has_id ruleId rule then spread rule updates else rule)
    <$> prev !! i.
Proof. unfold updateRule_updater. apply list_lookup_fmap. Qed.

Lemma filter_filter_same {A} (p : A -> bool) (xs : list A) :
  List.filter p (List.filter p xs) = List.filter p xs.
Proof.
  induction xs as [|x xs IH]; [done|]. cbn [List.filter].
  destruct (p x) eqn:Hp; [|done]. cbn [List.filter]. by rewrite Hp, IH.
Qed.

Lemma filter_filter_negb {A} (p : A -> bool) (xs : list A) :
  List.filter p (List.filter (fun x => negb (p x)) xs) = [].
Proof.
  induction xs as [|x xs IH]; [done|]. cbn [List.filter].
  destruct (p x) eqn:Hp; cbn [negb List.filter]; [done|]. by rewrite Hp.
Qed.

(** C10.  [updateRule] keeps the list length and rewrites position by
    position: a rule whose id is not [ruleId] stays the same object at the same
    index, a rule whose id is [ruleId] becomes [{ ...rule, ...updates }].
    [deleteRule] leaves no rule whose id is [ruleId], and the rules with another
    id are the same, in the same order, before and after.  A rejected API call
    leaves the list untouched. *)
Theorem rules_update_delete_frame (ruleId : jsval) (updates : obj) (st : Ctx)
    (r : Response) (error : jsval) :
  let updated := rules (fst (updateRule (Resolved r) ruleId updates st)) in
  let deleted := rules (fst (deleteRule (Resolved r) ruleId st)) in
  let other := fun rule => negb (has_id ruleId rule) in
  length updated = length (rules st) /\
  (forall i rule, rules st !! i = Some rule ->
     updated !! i =
       Some (if has_id ruleId rule then spread rule updates else rule)) /\
  (forall i rule, rules st !! i = Some rule -> has_id ruleId rule = false ->
     updated !! i = Some rule) /\
  List.filter (has_id ruleId) deleted = [] /\
  List.filter other deleted = List.filter other (rules st) /\
  sublist deleted (rules st) /\
  rules (fst (updateRule (Rejected error) ruleId updates st)) = rules st /\
  rules (fst (deleteRule (Rejected error) ruleId st)) = rules st.
Proof.
  cbn [updateRule deleteRule fst rules enqueue setRules].
  repeat split.
  - unfold updateRule_updater. apply length_map.
  - intros i rule Hi. by rewrite updateRule_updater_lookup, Hi.
  - intros i rule Hi Hid. by rewrite updateRule_updater_lookup, Hi; cbn; rewrite Hid.
  - apply filter_filter_negb.
  - apply (filter_filter_same (fun rule => negb (has_id ruleId rule))).
  - unfold deleteRule_updater.
    induction (rules st) as [|x xs IH]; [constructor|].
    cbn [List.filter]. destruct (negb (has_id ruleId x)); by constructor.
Qed.

End RulesList.

Section RuleValidation.
Import JS RuleCreator.

Lemma insert_keeps (errors : Errors) j v k :
  is_Some (errors !! k) -> is_Some (<[j := v]> errors !! k).
Proof. intros Hk. rewrite lookup_insert_is_Some. destruct (decide (j = k)); auto. Qed.

Lemma check_threshold_keeps (rule : Rule) (errors : Errors) k :
  is_Some (errors !! k) -> is_Some (check_threshold rule errors !! k).
Proof.
  intros Hk. unfold check_threshold.
  repeat case_match; repeat apply insert_keeps; assumption.
Qed.

Lemma check_pattern_keeps (rule : Rule) (errors : Errors) k :
  is_Some (errors !! k) -> is_Some (check_pattern rule errors !! k).
Proof.
  intros Hk. unfold check_pattern.
  case_match; repeat apply insert_keeps; assumption.
Qed.

Lemma errors_nonempty (errors : Errors) k :
  is_Some (errors !! k) -> bool_decide (errors = ∅) = false.
Proof.
  intros [m Hm]. apply bool_decide_eq_false. intros ->.
  by rewrite lookup_empty in Hm.
Qed.

Lemma check_keywords_keeps (rule : Rule) (errors : Errors) k :
  is_Some (errors !! k) -> is_Some (check_keywords rule errors !! k).
Proof.
  intros Hk. unfold check_keywords.
  case_match; repeat apply insert_keeps; assumption.
Qed.

(** An error recorded by one check survives the later ones: a blank name
    alone fails the validation of any rule. *)
Lemma blank_name_rejected (r : Rule) :
  trim (name r) = [] -> snd (validateRule r) = false.
Proof.
  intros Hn. cbn [validateRule snd]. apply (errors_nonempty _ "name").
  apply check_pattern_keeps, check_threshold_keeps, check_keywords_keeps.
  unfold check_name. rewrite Hn. cbn. by rewrite lookup_insert_eq.
Qed.

(** C5.  A rule of condition type [keyword] with no keywords never validates:
    [validateRule] returns [false] and records the [keywords] error, and
    [handleSave] therefore makes no [onSave] call, whatever else the rule
    holds. *)
Theorem empty_keywords_rejected (ed : Editor) (onSave : bool) :
  type (condition (rule ed)) = "keyword" ->
  keywords (condition (rule ed)) = [] ->
  snd (validateRule (rule ed)) = false /\
  fst (validateRule (rule ed)) !! "keywords"
    = Some "At least one keyword is required" /\
  snd (handleSave onSave ed) = [].
Proof.
  intros Hty Hkw.
  assert (Hk : check_keywords (rule ed) (check_name (rule ed) ∅) !! "keywords"
               = Some "At least one keyword is required").
  { unfold check_keywords. rewrite Hty, Hkw. cbn. by rewrite lookup_insert_eq. }
  assert (Hp : fst (validateRule (rule ed)) !! "keywords"
               = Some "At least one keyword is required").
  { cbn [validateRule fst]. unfold check_pattern, check_threshold.
    rewrite Hty. cbn. exact Hk. }
  assert (Hv : snd (validateRule (rule ed)) = false).
  { cbn [validateRule snd]. apply (errors_nonempty _ "keywords").
    cbn [validateRule fst] in Hp. by rewrite Hp. }
  repeat split; [exact Hv | exact Hp |].
  unfold handleSave. destruct (validateRule (rule ed)) as [errors valid].
  cbn [snd] in *. by rewrite Hv.
Qed.

Lemma empty_keywords_rejected_witness :
  snd (handleSave true {| rule := initialRule; validationErrors := ∅ |}) = [].
Proof.
  exact (proj2 (proj2 (empty_keywords_rejected
    {| rule := initialRule; validationErrors := ∅ |} true
    eq_refl eq_refl))).
Defined.

Lemma pattern_rule_errors (r : Rule) :
  type (condition r) = "pattern" ->
  fst (validateRule r) = check_pattern r (check_name r ∅).
Proof.
  intros Hty. cbn [validateRule fst].
  unfold check_threshold, check_keywords. by rewrite Hty.
Qed.

(** C6, as stated, fails: the pattern "(" is an unterminated group, yet a
    pattern rule carrying it validates and is handed to [onSave]. *)
Lemma invalid_regex_rejected_counterexample :
  type (condition Samples.unterminated) = "pattern" /\
  syntax_error (pattern (condition Samples.unterminated)) = true /\
  snd (validateRule Samples.unterminated) = true /\
  snd (handleSave true (Samples.editing Samples.unterminated))
    = [OnSave Samples.unterminated].
Proof. vm_compute. repeat split. Qed.

(** C6, amended.  For a rule of condition type [pattern], validation looks at
    presence only: it succeeds exactly when the trimmed name and the trimmed
    pattern are both non-empty.  A blank pattern is rejected with the
    [pattern] error and is not saved; a non-blank pattern is never rejected for
    its syntax. *)
Theorem pattern_validation_presence_only (ed : Editor) (onSave : bool) :
  type (condition (rule ed)) = "pattern" ->
  (snd (validateRule (rule ed)) = true <->
     trim (name (rule ed)) <> [] /\ trim (pattern (condition (rule ed))) <> []) /\
  (trim (pattern (condition (rule ed))) = [] ->
     fst (validateRule (rule ed)) !! "pattern" = Some "Pattern is required" /\
     snd (handleSave onSave ed) = []) /\
  (trim (name (rule ed)) <> [] ->
   trim (pattern (condition (rule ed))) <> [] ->
     snd (handleSave true ed) = [OnSave (rule ed)]).
Proof.
  intros Hty.
  pose proof (pattern_rule_errors (rule ed) Hty) as Herr.
  assert (Hvalid : snd (validateRule (rule ed))
                   = bool_decide (fst (validateRule (rule ed)) = ∅)) by done.
  rewrite Herr in Hvalid.
  unfold check_pattern, check_name in Herr, Hvalid.
  rewrite Hty in Herr, Hvalid. cbn [String.eqb Ascii.eqb Bool.eqb andb] in Herr, Hvalid.
  unfold handleSave.
  destruct (validateRule (rule ed)) as [errors valid]. cbn [fst snd] in *.
  destruct (trim (name (rule ed))) as [|n ns];
    destruct (trim (pattern (condition (rule ed)))) as [|c cs];
    cbn [truthy_utf16 negb] in Herr, Hvalid; subst errors.
  - rewrite bool_decide_eq_false_2 in Hvalid by apply insert_non_empty.
    subst valid. split; [split; [done | intros [? _]; done]|].
    split; [intros _; split; [apply lookup_insert_eq | done] | done].
  - rewrite bool_decide_eq_false_2 in Hvalid by apply insert_non_empty.
    subst valid. split; [split; [done | intros [? _]; done]|].
    split; done.
  - rewrite bool_decide_eq_false_2 in Hvalid by apply insert_non_empty.
    subst valid. split; [split; [done | intros [_ ?]; done]|].
    split; [intros _; split; [apply lookup_insert_eq | done] | done].
  - rewrite bool_decide_eq_true_2 in Hvalid by done.
    subst valid. split; [split; done|]. split; done.
Qed.

Lemma pattern_validation_presence_only_witness :
  snd (handleSave true (Samples.editing Samples.tickers))
    = [OnSave Samples.tickers].
Proof.
  apply (proj2 (proj2 (pattern_validation_presence_only
           (Samples.editing Samples.tickers) true eq_refl)));
    vm_compute; discriminate.
Defined.

(** White space is what [trim] takes it to be: a name that is a no-break
    space (U+00A0) or a byte order mark (U+FEFF) is blank, and a pattern rule
    with such a name is not saved. *)
Example no_break_space_name_rejected :
  let r c := handleConditionChange (set_pattern (lit "a"))
               (handleConditionChange (set_type "pattern")
                  {| name := [c]; description := "";
                     enabled := true; condition := condition initialRule;
                     action := action initialRule;
                     schedule := schedule initialRule;
                     notifications := notifications initialRule |}) in
  fst (validateRule (r 160%N)) !! "name" = Some "Rule name is required" /\
  snd (handleSave true (Samples.editing (r 160%N))) = [] /\
  snd (handleSave true (Samples.editing (r 65279%N))) = [].
Proof. vm_compute. repeat split. Qed.

End RuleValidation.

Section ThresholdBetween.
Import JS ConditionEvaluator.

Lemma between_without_value2_is_error (c : Threshold) (dp : DataPoint) :
  operator c = between -> value2 c = None ->
  evaluate_threshold c dp = EvaluationError "value2 missing".
Proof. intros Hop Hv2. unfold evaluate_threshold. by rewrite Hop, Hv2. Qed.

Lemma between_matches_iff (c : Threshold) (dp : DataPoint) :
  operator c = between ->
  (exists m, evaluate_threshold c dp = Evaluated m /\ matched m = true) <->
  (exists x hi, fields dp !! field c = Some (VNum x) /\ value2 c = Some hi /\
                (value c <= x)%Q /\ (x <= hi)%Q).
Proof.
  intros Hop. unfold evaluate_threshold. rewrite Hop.
  destruct (value2 c) as [hi|];
    [|split; [intros (? & ? & ?); done | intros (?&?&?&?&?); done]].
  destruct (fields dp !! field c) as [[x| |]|] eqn:Hf;
    try (split; [intros (? & [= <-] & [=]) | intros (?&?&?&?); done]).
  cbn [compare]. split.
  - intros (m & [= <-] & Hc). cbn [matched] in Hc.
    apply andb_true_iff in Hc as [H1 H2].
    exists x, hi. repeat split; by apply Qle_bool_iff.
  - intros (x' & hi' & [= <-] & [= <-] & H1 & H2).
    eexists. split; [reflexivity|]. cbn [matched]. apply andb_true_iff.
    split; by apply Qle_bool_iff.
Qed.

Lemma saved_rule_has_no_value2 (c : RuleCreator.Condition) (t : Threshold) :
  of_saved c = Some t -> value2 t = None.
Proof.
  unfold of_saved. repeat case_match; intros [= <-]; done.
Qed.

(** C7.  The editor offers the operator [between] but its condition has the
    single bound [threshold]: a between rule passes [validateRule], is handed
    to [onSave], and the engine's condition read from it has no [value2], so
    evaluating it is an error on every DataPoint. *)
Theorem between_rule_saved_without_value2 :
  In "between" RuleCreator.operators /\
  snd (RuleCreator.validateRule Samples.price_band) = true /\
  snd (RuleCreator.handleSave true (Samples.editing Samples.price_band))
    = [RuleCreator.OnSave Samples.price_band] /\
  exists t, of_saved (RuleCreator.condition Samples.price_band) = Some t /\
            operator t = between /\ value2 t = None /\
            forall dp, evaluate_threshold t dp = EvaluationError "value2 missing".
Proof.
  split; [cbn; tauto|]. split; [by vm_compute|]. split; [by vm_compute|].
  eexists. split; [vm_compute; reflexivity|].
  split; [done|]. split; [done|].
  intros dp. by apply between_without_value2_is_error.
Qed.

End ThresholdBetween.

Section Countdown.
Import ActionPreview.

(** No render of the component returns the card: with an action, the JSX names
    [Avatar], which the module does not import. *)
Lemma render_action p a :
  action p = Some a -> render p = ReferenceError "Avatar".
Proof. intros Ha. unfold render. by rewrite Ha. Qed.

Lemma render_not_card p : render p <> CardShown.
Proof.
  destruct (action p) as [a|] eqn:Ha.
  - by rewrite (render_action p a Ha).
  - unfold render. by rewrite Ha.
Qed.

(** Where no card is shown, no event changes the state or calls a handler. *)
Lemma run_unrendered p st evs :
  render p <> CardShown -> run p st evs = (st, []).
Proof.
  intros Hr. induction evs as [|ev evs IH]; [done|].
  cbn [run]. unfold step. destruct (render p); [by rewrite IH|done|by rewrite IH].
Qed.

Lemma run_rendered p st evs :
  render p = CardShown -> run p st evs = card_run p st evs.
Proof.
  intros Hr. revert st. induction evs as [|ev evs IH]; intros st; [done|].
  cbn [run card_run]. unfold step. rewrite Hr.
  destruct (card_step p st ev) as [st1 out1]. by rewrite IH.
Qed.

Lemma card_run_app p st evs1 evs2 :
  card_run p st (evs1 ++ evs2) =
  let (st1, out1) := card_run p st evs1 in
  let (st2, out2) := card_run p st1 evs2 in
  (st2, out1 ++ out2).
Proof.
  revert st. induction evs1 as [|ev evs1 IH]; intros st; cbn [app card_run].
  - by destruct (card_run p st evs2).
  - destruct (card_step p st ev) as [st1 out1]. rewrite IH.
    destruct (card_run p st1 evs1) as [st2 out2].
    destruct (card_run p st2 evs2) as [st3 out3]. by rewrite app_assoc.
Qed.

(** The handlers as written: while the countdown shows more than one second,
    a timer tick only decrements it. *)
Lemma card_ticks_before_expiry p a (n : nat) (c : Z) :
  action p = Some a -> autoConfirm p = true -> requires a = true ->
  (Z.of_nat n < c)%Z ->
  card_run p {| countdown := c |} (repeat TimerFired n)
    = ({| countdown := c - Z.of_nat n |}, []).
Proof.
  intros Ha Hauto Hreq. revert c.
  induction n as [|n IH]; intros c Hlt.
  - cbn. do 2 f_equal. lia.
  - cbn [repeat card_run]. unfold card_step, armed. rewrite Ha, Hauto, Hreq.
    cbn [andb countdown].
    destruct (Z.ltb_spec 0 c); [|lia].
    destruct (Z.eqb_spec c 1); [lia|]. cbn [andb].
    rewrite IH by lia. cbn [app]. do 2 f_equal. lia.
Qed.

(** The handlers as written: the tick at one second left calls [onConfirm]
    and stops the countdown. *)
Lemma card_tick_at_expiry p a :
  action p = Some a -> autoConfirm p = true -> requires a = true ->
  card_step p {| countdown := 1 |} TimerFired
    = ({| countdown := 0 |}, if onConfirm p then [Confirm a] else []).
Proof.
  intros Ha Hauto Hreq. unfold card_step, armed. by rewrite Ha, Hauto, Hreq.
Qed.

(** The handlers as written: from [n + 1] seconds left, [n + 1] ticks call
    [onConfirm] once, on the last tick, and leave the countdown at zero. *)
Lemma card_ticks_to_expiry p a (n : nat) :
  action p = Some a -> autoConfirm p = true -> requires a = true ->
  onConfirm p = true ->
  card_run p {| countdown := Z.of_nat (S n) |} (repeat TimerFired (S n))
    = ({| countdown := 0 |}, [Confirm a]).
Proof.
  intros Ha Hauto Hreq Hc.
  cbn [repeat]. rewrite repeat_cons, card_run_app.
  rewrite (card_ticks_before_expiry p a) by (auto; lia).
  replace (Z.of_nat (S n) - Z.of_nat n)%Z with 1%Z by lia.
  cbn [card_run]. by rewrite (card_tick_at_expiry p a), Hc by auto.
Qed.

(** What the effect and the buttons are written to do, on a card that was
    shown: count down from 30 and call [onConfirm] on the thirtieth tick; a
    Reject click calls [onReject] and clears no timeout, so the ticks that
    follow still end in [onConfirm]. *)
Example card_handlers_as_written :
  card_run PreviewSamples.with_auto_confirm mount (repeat TimerFired 30)
    = ({| countdown := 0 |}, [Confirm PreviewSamples.guarded_alert]) /\
  card_run PreviewSamples.with_auto_confirm mount
      (ClickReject :: repeat TimerFired 30)
    = ({| countdown := 0 |},
       [Reject PreviewSamples.guarded_alert;
        Confirm PreviewSamples.guarded_alert]).
Proof. split; by vm_compute. Qed.

(** C4.  The preview never counts down.  For every action it is given, the
    render throws a ReferenceError on [Avatar] (used in the header of the card,
    not imported), so the effect that sets the timeout never runs and the
    buttons are never shown: whatever time passes and whatever [autoConfirm]
    and [requires_confirmation] are, the countdown state stays where it is and
    neither [onConfirm] nor [onReject] is called. *)
Theorem preview_never_counts_down p a st evs :
  action p = Some a ->
  imported "Avatar" = false /\
  render p = ReferenceError "Avatar" /\
  run p st evs = (st, []).
Proof.
  intros Ha. split; [reflexivity|]. split; [by apply (render_action p a)|].
  apply run_unrendered. by rewrite (render_action p a Ha).
Qed.

Lemma preview_never_counts_down_witness :
  run PreviewSamples.with_auto_confirm mount (repeat TimerFired 30)
    = (mount, []).
Proof.
  exact (proj2 (proj2 (preview_never_counts_down
    PreviewSamples.with_auto_confirm PreviewSamples.guarded_alert mount
    (repeat TimerFired 30) eq_refl))).
Defined.

End Countdown.
Section RateLimit.
Import SafetyGate.








(** The checks run in sequence: a decision under the confidence threshold is
    [blocked] by the first check and never reaches the rate limiter, also
    when the window of its key is full. *)
Example low_confidence_stops_before_rate_limit :
  let store := snd (serve GateSamples.policy 0 []
                      [(0%N, GateSamples.request 1)]) in
  rate_limit_max GateSamples.policy
    <= count_in (key_of (GateSamples.request (3 # 10)))
         (10 - rate_limit_window GateSamples.policy) 10 store /\
  reaches_rate_limit GateSamples.policy (GateSamples.request (3 # 10)) = false /\
  gate GateSamples.policy 10 (GateSamples.request (3 # 10)) store
    = (blocked "confidence", store).
Proof. vm_compute. repeat split; lia. Qed.



(** What the gate answers on those four arrivals, at times 0, 10, 60 and 61:
    the first is accepted, the next two fall in its window and are
    [rate_limited], the fourth is outside it. *)
Example serve_sample_outcomes :
  List.map is_accepted
    (fst (serve GateSamples.policy 0 []
            [(0%N, GateSamples.request 1); (10%N, GateSamples.request 1);
             (50%N, GateSamples.request 1); (1%N, GateSamples.request 1)]))
  = [true; false; false; true] /\
  nth_error
    (fst (serve GateSamples.policy 0 []
            [(0%N, GateSamples.request 1); (10%N, GateSamples.request 1);
             (50%N, GateSamples.request 1); (1%N, GateSamples.request 1)])) 1
  = Some rate_limited.
Proof. by vm_compute. Qed.

End RateLimit.

Section Confirmation.
Import JS SystemContext ConfirmationManager.

Lemma resolve_terminal (c : bool) (h : Held) :
  terminal (status h) = true ->
  resolve c h = (h, already_resolved (status h)).
Proof. unfold resolve. by destruct (status h). Qed.

Lemma resolve_all_terminal (calls : list bool) (h : Held) :
  terminal (status h) = true ->
  resolve_all calls h
    = (h, List.map (fun _ => already_resolved (status h)) calls).
Proof.
  intros Hterm. induction calls as [|c rest IH]; [done|].
  cbn [resolve_all List.map]. by rewrite (resolve_terminal c h Hterm), IH.
Qed.

Lemma timeout_terminal (auto : bool) (h : Held) :
  terminal (status h) = true -> timeout auto h = h.
Proof. unfold timeout. by destruct (status h). Qed.

(** A call of the provider on a terminal action: nothing changes on either
    side, no notice is shown, and the call returns the resolved response
    whose body names the terminal state. *)
Lemma call_terminal (actionId : string) (c : option bool) (h : Held) (ctx : Ctx) :
  terminal (status h) = true ->
  call actionId c (h, ctx)
    = ((h, ctx), Resolved {| data := JStr (status_name (status h)) |}).
Proof.
  intros Hterm. unfold call, endpoint. cbn [fst snd].
  by rewrite (resolve_terminal _ h Hterm).
Qed.

Lemma call_all_terminal (actionId : string) (later : list (option bool))
    (h : Held) (ctx : Ctx) :
  terminal (status h) = true ->
  call_all actionId later (h, ctx)
    = ((h, ctx),
       List.map (fun _ => Resolved {| data := JStr (status_name (status h)) |})
         later).
Proof.
  intros Hterm. induction later as [|c rest IH]; [done|].
  cbn [call_all List.map]. by rewrite (call_terminal _ c h ctx Hterm), IH.
Qed.

(** C2.  The first [confirmAction] call on a held action fixes its terminal
    state: [confirmed], handed once to the executor, or [rejected], never
    handed ([confirm] left out counts as [true]).  It returns the resolved
    response whose body names that state.  Every later call, confirm or
    reject, is answered [already_resolved] by the manager, leaves the held
    action and the provider state exactly as they are, hands nothing to the
    executor, and returns the same resolved response, never a thrown error.
    The same holds for calls on any action that is already terminal. *)
Theorem confirm_reject_idempotent (actionId : string)
    (countdown_allowed : bool) (first : option bool)
    (later : list (option bool)) (ctx : Ctx) :
  let c := default true first in
  let won := if c then confirmed else rejected in
  let h1 := {| status := won; countdown := false;
               handoffs := if c then 1 else 0 |} in
  let answer := Resolved {| data := JStr (status_name won) |} in
  confirmAction_request actionId first
    = {| url := String.append "/api/v1/actions/confirm/" actionId;
         body_confirm := c |} /\
  resolve c (enter countdown_allowed) = (h1, resolved won) /\
  terminal won = true /\
  call actionId first (enter countdown_allowed, ctx) = ((h1, ctx), answer) /\
  resolve_all (List.map (default true) later) h1
    = (h1, List.map (fun _ => already_resolved won) later) /\
  call_all actionId later (h1, ctx)
    = ((h1, ctx), List.map (fun _ => answer) later) /\
  (forall h c', terminal (status h) = true ->
     call actionId c' (h, ctx)
       = ((h, ctx), Resolved {| data := JStr (status_name (status h)) |})).
Proof.
  cbv zeta.
  split; [reflexivity|]. split; [by destruct (default true first)|].
  split; [by destruct (default true first)|].
  split; [unfold call, endpoint, confirmAction_request; cbn;
          by destruct (default true first)|].
  split.
  - rewrite resolve_all_terminal by (by destruct (default true first)).
    by rewrite List.map_map.
  - split.
    + rewrite call_all_terminal by (by destruct (default true first)). done.
    + intros h c' Hterm. by apply call_terminal.
Qed.

Lemma confirm_reject_idempotent_witness :
  call_all "act-7" [Some true; None; Some false]
    ({| status := rejected; countdown := false; handoffs := 0 |},
     RulesSamples.ctx)
  = (({| status := rejected; countdown := false; handoffs := 0 |},
      RulesSamples.ctx),
     [Resolved {| data := JStr "rejected" |};
      Resolved {| data := JStr "rejected" |};
      Resolved {| data := JStr "rejected" |}]).
Proof.
  exact (proj1 (proj2 (proj2 (proj2 (proj2 (proj2
    (confirm_reject_idempotent "act-7" true (Some false)
       [Some true; None; Some false] RulesSamples.ctx))))))).
Defined.

(** [response.success] is read off an axios response, which has no such
    key: also the first, successful call shows no "Action confirmed"
    notice. *)
Example confirmAction_shows_no_notice :
  snackbar (snd (fst (call "act-7" (Some true) (enter true, RulesSamples.ctx))))
  = [].
Proof. reflexivity. Qed.

(** A countdown that fires after the call changes nothing either. *)
Lemma timeout_after_resolve (auto c countdown_allowed : bool) :
  timeout auto (fst (resolve c (enter countdown_allowed)))
  = fst (resolve c (enter countdown_allowed)).
Proof. apply timeout_terminal. by destruct c. Qed.

Lemma handle_terminal (auto : bool) (h : Held) (evs : list Event) :
  terminal (status h) = true -> foldl (handle auto) h evs = h.
Proof.
  intros Hterm. induction evs as [|ev evs IH]; [done|]. cbn [foldl].
  destruct ev as [c|]; cbn [handle].
  - by rewrite (resolve_terminal c h Hterm).
  - by rewrite (timeout_terminal auto h Hterm).
Qed.

(** Without a countdown, a held action stays as it is until the first
    explicit call, which decides. *)
Lemma handle_without_countdown (auto : bool) (n : nat) (evs : list Event) :
  foldl (handle auto)
    {| status := requires_confirmation; countdown := false; handoffs := n |} evs
  = match first_call evs with
    | None =>
        {| status := requires_confirmation; countdown := false; handoffs := n |}
    | Some true =>
        {| status := confirmed; countdown := false; handoffs := S n |}
    | Some false =>
        {| status := rejected; countdown := false; handoffs := n |}
    end.
Proof.
  induction evs as [|ev evs IH]; [done|]. cbn [foldl first_call].
  destruct ev as [[]|]; cbn [handle resolve timeout status countdown fst].
  - by apply handle_terminal.
  - by apply handle_terminal.
  - exact IH.
Qed.

(** C3.  An action the gate creates for a rule of safety level [high] is
    created in [requires_confirmation] and enters the Confirmation Manager
    with the countdown disabled.  From there no expiry changes it, whatever
    the timeout policy: it stays in [requires_confirmation] until the first
    explicit call, and that call alone makes it [confirmed] (handed to the
    executor once) or [rejected].  In the front end the only countdown is
    that of the action preview, and a confirm call of the preview is always
    a click on its Confirm button. *)
Theorem high_resolved_by_explicit_call_only pol now req store
    (auto : bool) (evs : list Event) :
  SafetyGate.level_of pol req = SafetyGate.high ->
  SafetyGate.is_accepted (fst (SafetyGate.gate pol now req store)) = true ->
  (exists a h,
     fst (SafetyGate.gate pol now req store)
       = SafetyGate.accepted a (SafetyGate.to_confirmation false) /\
     SafetyGate.a_status a = SafetyGate.requires_confirmation /\
     hand_over (SafetyGate.to_confirmation false) = Some h /\
     countdown h = false /\
     (forall n, foldl (handle auto) h (repeat Expiry n) = h) /\
     status (foldl (handle auto) h evs)
       = match first_call evs with
         | None => requires_confirmation
         | Some true => confirmed
         | Some false => rejected
         end /\
     handoffs (foldl (handle auto) h evs)
       = match first_call evs with
         | Some true => 1
         | _ => 0
         end) /\
  List.map SafetyGate.level_name
    [SafetyGate.low; SafetyGate.medium; SafetyGate.high]
    = QueryInput.safetyLevels /\
  (forall p st pevs a,
     In (ActionPreview.Confirm a) (snd (ActionPreview.run p st pevs)) ->
     In ActionPreview.ClickConfirm pevs).
Proof.
  intros Hlvl Hacc. split; [|split; [reflexivity|]].
  - unfold SafetyGate.gate in *.
    destruct (negb _); [discriminate Hacc|].
    destruct (SafetyGate.rate_limit_check pol now req store) as [o|] eqn:Hrl.
    { unfold SafetyGate.rate_limit_check in Hrl.
      destruct (_ <=? _)%nat; [|discriminate Hrl].
      injection Hrl as <-. discriminate Hacc. }
    destruct (SafetyGate.seen _ _ _ _); [discriminate Hacc|].
    rewrite Hlvl. cbn [fst].
    eexists _, (enter false). split; [reflexivity|].
    split; [reflexivity|]. split; [reflexivity|]. split; [reflexivity|].
    unfold enter. split; [|split].
    + intros n. rewrite handle_without_countdown.
      assert (Hnone : first_call (repeat Expiry n) = None)
        by (induction n as [|n IH]; [done|exact IH]).
      by rewrite Hnone.
    + rewrite handle_without_countdown.
      by destruct (first_call evs) as [[]|].
    + rewrite handle_without_countdown.
      by destruct (first_call evs) as [[]|].
  - intros p st pevs a Hin.
    rewrite (run_unrendered p st pevs (render_not_card p)) in Hin.
    destruct Hin.
Qed.

Lemma high_resolved_by_explicit_call_only_witness :
  status (foldl (handle true) (enter false) [Expiry; Expiry; Call false; Expiry])
  = rejected.
Proof.
  destruct (proj1 (high_resolved_by_explicit_call_only
    GateSamples.high_policy 0 (GateSamples.request 1) [] true
    [Expiry; Expiry; Call false; Expiry] eq_refl eq_refl))
    as (a & h & _ & _ & Hentry & _ & _ & Hstatus & _).
  injection Hentry as <-. exact Hstatus.
Defined.

(** The scenario of the specification: safety level [high], confidence
    0.95; the action is created in [requires_confirmation], an expiry leaves
    it there, an explicit reject makes it [rejected] and hands nothing to the
    executor.  At level [medium] the same expiry resolves the action. *)
Example high_scenario :
  let outcome := fst (SafetyGate.gate GateSamples.high_policy 0
                        (GateSamples.request (95 # 100)) []) in
  (exists a, outcome = SafetyGate.accepted a (SafetyGate.to_confirmation false)
             /\ SafetyGate.a_status a = SafetyGate.requires_confirmation) /\
  status (handle true (enter false) Expiry) = requires_confirmation /\
  foldl (handle true) (enter false) [Expiry; Call false]
    = {| status := rejected; countdown := false; handoffs := 0 |} /\
  status (handle true (enter true) Expiry) = confirmed /\
  status (handle false (enter true) Expiry) = expired.
Proof. split; [eexists; split; reflexivity|]. by vm_compute. Qed.

End Confirmation.
Section Scoring.
Import DecisionScorer.

(** On the dashboard the flag lines up with the confidence labels: a scored
    decision is unflagged exactly when [getConfidenceLevel] reads "Low", and
    exactly then [getDecisionColor] answers "info". *)
Lemma display_agrees_with_baseline (m : ConditionEvaluator.MatchResult)
    (rule : Rule) (signal : option ExternalSignal) :
  let d := score m rule signal in
  (action_required d = false <->
   ActionPreview.getConfidenceLevel (confidence d) = "Low") /\
  (action_required d = false <->
   ResultsDisplay.getDecisionColor (Some (displayed d)) = "info").
Proof.
  cbn [score action_required confidence displayed
       ResultsDisplay.getDecisionColor ResultsDisplay.action_required
       ResultsDisplay.confidence].
  set (c := match signal with Some s => signal_confidence s | None => _ end).
  unfold ActionPreview.getConfidenceLevel, baseline. split.
  - destruct (Qle_bool (5 # 10) c) eqn:H5.
    + split; [done|]. repeat case_match; done.
    + split; [|done]. intros _.
      assert (H7 : Qle_bool (7 # 10) c = false).
      { apply not_true_is_false. intros H. apply Qle_bool_iff in H.
        apply not_true_iff_false in H5. apply H5. apply Qle_bool_iff.
        eapply Qle_trans; [|exact H]. by apply Qle_bool_iff. }
      assert (H9 : Qle_bool (9 # 10) c = false).
      { apply not_true_is_false. intros H. apply Qle_bool_iff in H.
        apply not_true_iff_false in H5. apply H5. apply Qle_bool_iff.
        eapply Qle_trans; [|exact H]. by apply Qle_bool_iff. }
      by rewrite H9, H7.
  - destruct (Qle_bool (5 # 10) c); [|done].
    split; [done|]. repeat case_match; done.
Qed.

(** C8.  The scorer sets [action_required] exactly when the confidence of the
    decision is at least the baseline 0.5.  The policy threshold is no input of
    the scorer; what the flag does line up with is the display: a scored
    decision is unflagged exactly when the preview labels its confidence "Low"
    and exactly when the results panel colours it "info". *)
Theorem action_required_iff_baseline (m : ConditionEvaluator.MatchResult)
    (rule : Rule) (signal : option ExternalSignal) :
  let d := score m rule signal in
  (action_required d = true <-> (5 # 10 <= confidence d)%Q) /\
  (action_required d = false <->
   ActionPreview.getConfidenceLevel (confidence d) = "Low") /\
  (action_required d = false <->
   ResultsDisplay.getDecisionColor (Some (displayed d)) = "info").
Proof.
  cbv zeta. split; [|apply display_agrees_with_baseline].
  cbn [score action_required confidence]. apply Qle_bool_iff.
Qed.

(** The flag and the gate's confidence check are independent tests: under a
    threshold of 0.75 a decision of confidence 0.6 is flagged yet blocked, and
    under a threshold of 0.2 a decision of confidence 0.3 is unflagged yet
    passes the check. *)
Example baseline_is_not_the_policy_threshold :
  let signal c := Some {| signal_confidence := c; signal_urgency := (5 # 1)%Q;
                          signal_reason := "llm" |} in
  let m := {| ConditionEvaluator.matched := true;
              ConditionEvaluator.detail := "keyword" |} in
  let rule := {| id := "r1"; configured_urgency := None |} in
  let pol t := {| SafetyGate.confidence_threshold := t;
                  SafetyGate.rate_limit_window := 60;
                  SafetyGate.rate_limit_max := 5;
                  SafetyGate.dedup_window := 0;
                  SafetyGate.default_safety_level := SafetyGate.low |} in
  let req c := {| SafetyGate.decision := score m rule (signal c);
                  SafetyGate.type := SafetyGate.alert;
                  SafetyGate.parameters := ∅;
                  SafetyGate.safety_level := None |} in
  action_required (score m rule (signal (6 # 10)%Q)) = true /\
  fst (SafetyGate.gate (pol (75 # 100)%Q) 0 (req (6 # 10)%Q) [])
    = SafetyGate.blocked "confidence" /\
  action_required (score m rule (signal (3 # 10)%Q)) = false /\
  SafetyGate.is_accepted
    (fst (SafetyGate.gate (pol (2 # 10)%Q) 0 (req (3 # 10)%Q) [])) = true.
Proof. by vm_compute. Qed.

End Scoring.

Section ProviderSamples.
Import JS SystemContext.

Lemma rules_update_delete_frame_witness :
  rules (fst (updateRule (Resolved RulesSamples.ok) (JStr "b")
                RulesSamples.disable RulesSamples.ctx)) !! 0
  = Some RulesSamples.rule_a.
Proof.
  exact (proj1 (proj2 (proj2 (rules_update_delete_frame (JStr "b")
    RulesSamples.disable RulesSamples.ctx RulesSamples.ok JNull)))
    0 RulesSamples.rule_a eq_refl eq_refl).
Defined.

(** Updating "b" rewrites the middle rule only; deleting "a" keeps "b". *)
Example update_and_delete_sample :
  rules (fst (updateRule (Resolved RulesSamples.ok) (JStr "b")
                RulesSamples.disable RulesSamples.ctx))
    = [RulesSamples.rule_a;
       <["id" := JStr "b"]> {["enabled" := JBool false]};
       RulesSamples.rule_a] /\
  rules (fst (deleteRule (Resolved RulesSamples.ok) (JStr "a")
                RulesSamples.ctx))
    = [RulesSamples.rule_b].
Proof. split; by vm_compute. Qed.

(** The provider's own history updaters keep the same bounds as the store:
    [handleDataUpdate] rewrites a known stream in place and otherwise
    prepends, [handleActionExecuted] prepends. *)
Lemma provider_updaters_bounded (data : obj) (action : jsval)
    (streams : list obj) (acts : list jsval) :
  length streams <= 50 ->
  length (handleDataUpdate_updater data streams) <= 50 /\
  length (handleActionExecuted_updater action acts) <= 100.
Proof.
  intros Hs. split.
  - unfold handleDataUpdate_updater. case_match.
    + by rewrite length_alter.
    + apply (prepend_slice0_length 49).
  - apply (prepend_slice0_length 99).
Qed.

End ProviderSamples.

Section TextFacts.
Import JS Text.

Lemma drop_spaces_fixed (cs : utf16) :
  drop_spaces cs = cs <-> match cs with [] => True | c :: _ => is_space c = false end.
Proof.
  destruct cs as [|c cs]; [done|]. cbn [drop_spaces].
  destruct (is_space c) eqn:Hc; split; try done.
  intros Heq. exfalso.
  assert (Hlen : forall l, length (drop_spaces l) <= length l).
  { induction l as [|x l IH]; [done|]. cbn [drop_spaces].
    destruct (is_space x); cbn [length]; lia. }
  pose proof (Hlen cs) as Hle. rewrite Heq in Hle. cbn [length] in Hle. lia.
Qed.

Lemma drop_spaces_idem (cs : utf16) :
  drop_spaces (drop_spaces cs) = drop_spaces cs.
Proof.
  induction cs as [|c cs IH]; [done|]. cbn [drop_spaces].
  destruct (is_space c) eqn:Hc; [exact IH|]. cbn [drop_spaces]. by rewrite Hc.
Qed.

(** What [drop_spaces] removes is a run of white space in front. *)
Lemma drop_spaces_split (cs : utf16) :
  exists pre, cs = pre ++ drop_spaces cs /\ forallb is_space pre = true.
Proof.
  induction cs as [|c cs (pre & Hcs & Hpre)]; [by exists []|].
  cbn [drop_spaces]. destruct (is_space c) eqn:Hc.
  - exists (c :: pre). cbn [app forallb]. rewrite Hc, Hpre.
    split; [by f_equal|done].
  - by exists [].
Qed.

Lemma trim_head (cs : utf16) : drop_spaces (trim cs) = trim cs.
Proof.
  unfold trim. set (d := drop_spaces cs).
  destruct (drop_spaces_split (rev d)) as (pre & Hrev & _).
  set (u := drop_spaces (rev d)) in *.
  assert (Hd : d = rev u ++ rev pre).
  { rewrite <- (rev_involutive d), Hrev, rev_app_distr. done. }
  apply drop_spaces_fixed. destruct (rev u) as [|c t] eqn:Hu; [done|].
  assert (Hfix : drop_spaces d = d) by apply drop_spaces_idem.
  apply drop_spaces_fixed in Hfix. by rewrite Hd in Hfix.
Qed.

Lemma trim_idem (s : utf16) : trim (trim s) = trim s.
Proof.
  unfold trim at 1. rewrite trim_head.
  unfold trim. by rewrite rev_involutive, drop_spaces_idem.
Qed.

Lemma trim_incl (cs : utf16) c : In c (trim cs) -> In c cs.
Proof.
  unfold trim. intros Hin. apply in_rev in Hin.
  destruct (drop_spaces_split (rev (drop_spaces cs))) as (p1 & H1 & _).
  destruct (drop_spaces_split cs) as (p2 & H2 & _).
  rewrite H2. apply in_or_app. right.
  apply in_rev. rewrite H1. apply in_or_app. by right.
Qed.

Lemma trim_lacks c (s : utf16) : lacks c s -> lacks c (trim s).
Proof. unfold lacks. intros Hs Hin. apply Hs. by apply trim_incl. Qed.

Lemma trim_leading_space (s : utf16) : trim (chr " " :: s) = trim s.
Proof. reflexivity. Qed.

(** The trimmed string is the original without a run of white space at
    either end, and has none left there. *)
Lemma trim_spec (s : utf16) :
  exists pre post,
    s = pre ++ trim s ++ post /\
    forallb is_space pre = true /\ forallb is_space post = true /\
    drop_spaces (trim s) = trim s /\
    drop_spaces (rev (trim s)) = rev (trim s).
Proof.
  destruct (drop_spaces_split s) as (pre & Hs & Hpre).
  destruct (drop_spaces_split (rev (drop_spaces s))) as (post & Hr & Hpost).
  exists pre, (rev post). split; [|split; [exact Hpre|split; [|split]]].
  - unfold trim. rewrite <- rev_app_distr, <- Hr, rev_involutive. exact Hs.
  - rewrite forallb_forall in *. intros x Hx. apply Hpost. by apply in_rev.
  - apply trim_head.
  - unfold trim. rewrite rev_involutive. apply drop_spaces_idem.
Qed.

Lemma split_nonempty sep cs : split sep cs <> [].
Proof.
  destruct cs as [|c cs]; [done|]. cbn [split].
  destruct (N.eqb c sep); [done|]. by destruct (split sep cs).
Qed.

Lemma split_lack sep cs : Forall (lacks sep) (split sep cs).
Proof.
  unfold lacks. induction cs as [|c cs IH]; cbn [split].
  - constructor; [by intros []|constructor].
  - destruct (N.eqb_spec c sep) as [->|Hne].
    + constructor; [by intros []|exact IH].
    + destruct (split sep cs) as [|w ws]; [constructor; [|constructor]|].
      * intros [?|[]]; congruence.
      * inversion IH as [|? ? Hw Hws]; subst. constructor; [|exact Hws].
        intros [?|?]; [congruence|done].
Qed.

(** A piece without the separator, then the separator, then the rest. *)
Lemma split_app sep (w rest : utf16) :
  ~ In sep w ->
  split sep (w ++ sep :: rest) = w :: split sep rest.
Proof.
  induction w as [|c w IH]; intros Hw; cbn [app split].
  - by rewrite N.eqb_refl.
  - destruct (N.eqb_spec c sep) as [->|Hne]; [exfalso; apply Hw; by left|].
    rewrite IH; [done|]. intros Hin. apply Hw. by right.
Qed.

Lemma split_single sep (w : utf16) :
  ~ In sep w -> split sep w = [w].
Proof.
  induction w as [|c w IH]; intros Hw; cbn [split]; [done|].
  destruct (N.eqb_spec c sep) as [->|Hne]; [exfalso; apply Hw; by left|].
  rewrite IH; [done|]. intros Hin. apply Hw. by right.
Qed.

Lemma split_incl sep (cs : utf16) :
  Forall (fun w => forall c, In c w -> In c cs) (split sep cs).
Proof.
  induction cs as [|c cs IH]; cbn [split].
  - constructor; [by intros ? []|constructor].
  - assert (IH' : Forall (fun w => forall x, In x w -> In x (c :: cs))
                    (split sep cs)).
    { eapply Forall_impl; [exact IH|]. cbn. intros w Hw x Hx. right. by apply Hw. }
    destruct (N.eqb c sep).
    + constructor; [by intros ? []|exact IH'].
    + destruct (split sep cs) as [|w ws].
      * constructor; [|constructor]. intros x [<-|[]]. by left.
      * inversion IH' as [|? ? Hw Hws]; subst. constructor; [|exact Hws].
        intros x [<-|Hx]; [by left|by apply Hw].
Qed.

(** The code units [trim] takes for white space, found by trying all of
    them: the 25 of ECMAScript's WhiteSpace and LineTerminator. *)
Example white_space_code_units :
  List.filter is_space (code_units (2 ^ 16) 0)
  = [9; 10; 11; 12; 13; 32; 160; 5760;
     8192; 8193; 8194; 8195; 8196; 8197; 8198; 8199; 8200; 8201; 8202;
     8232; 8233; 8239; 8287; 12288; 65279]%N.
Proof. vm_compute. reflexivity. Qed.

(** The white space of [trim] reaches beyond ASCII: a no-break space and a
    byte order mark around a word are trimmed away, a zero-width space
    (U+200B) and a next-line control (U+0085) are not. *)
Example trim_unicode :
  trim ([160; 65279; 8232] ++ lit "hi" ++ [12288; 8202; 9])%N = lit "hi" /\
  trim [8203; 104; 105; 133]%N = [8203; 104; 105; 133]%N.
Proof. split; reflexivity. Qed.

End TextFacts.
Section KeywordsFieldFacts.
Import JS Text RuleCreator KeywordsField.

Lemma truthy_str_true (s : string) : truthy_str s = true <-> s <> "".
Proof.
  unfold truthy_str. destruct (String.eqb_spec s ""); split; try done.
Qed.

Lemma truthy_utf16_true (s : utf16) : truthy_utf16 s = true <-> s <> [].
Proof. destruct s; split; done. Qed.

(** A piece between commas that is not blank is a clean keyword once
    trimmed. *)
Lemma trimmed_piece_clean (piece : utf16) :
  lacks (chr ",") piece -> truthy_utf16 (trim piece) = true ->
  clean (trim piece).
Proof.
  intros Hpiece Htruthy. repeat split.
  - by apply truthy_utf16_true.
  - apply trim_idem.
  - by apply trim_lacks.
Qed.

Lemma parsed_keywords_clean (value : utf16) :
  Forall clean (keywordArray value).
Proof.
  unfold keywordArray. apply List.Forall_forall. intros k Hk.
  apply filter_In in Hk as [Hk Htruthy].
  apply in_map_iff in Hk as (piece & <- & Hpiece).
  apply trimmed_piece_clean; [|exact Htruthy].
  pose proof (split_lack (chr ",") value) as Hall.
  rewrite List.Forall_forall in Hall. by apply Hall.
Qed.

(** X1.  Whatever is typed into the keywords field, every keyword the field
    produces is non-empty, has no white space left to trim and contains no
    comma. *)
Theorem keywordArray_clean (value : utf16) :
  Forall clean (keywordArray value).
Proof.
  unfold keywordArray.
  pose proof (split_lack (chr ",") value) as Hpieces.
  induction Hpieces as [|piece pieces Hpiece _ IH]; [constructor|].
  cbn [List.map List.filter].
  destruct (truthy_utf16 (trim piece)) eqn:Htruthy; [|exact IH].
  constructor; [|exact IH]. by apply trimmed_piece_clean.
Qed.

Lemma join_leading_space (k : utf16) (ks : list utf16) :
  chr " " :: join (lit ", ") (k :: ks) = join (lit ", ") ((chr " " :: k) :: ks).
Proof. by destruct ks. Qed.

Lemma split_join (k : utf16) (ks : list utf16) :
  Forall (lacks (chr ",")) (k :: ks) ->
  split (chr ",") (join (lit ", ") (k :: ks)) = k :: List.map (cons (chr " ")) ks.
Proof.
  revert k. induction ks as [|k2 ks IH]; intros k Hall.
  - inversion Hall as [|? ? Hk _]; subst. cbn [join List.map].
    by rewrite split_single by exact Hk.
  - inversion Hall as [|? ? Hk Hrest]; subst.
    inversion Hrest as [|? ? Hk2 Hks]; subst.
    change (join (lit ", ") (k :: k2 :: ks))
      with (k ++ chr "," :: chr " " :: join (lit ", ") (k2 :: ks)).
    rewrite join_leading_space.
    rewrite split_app by exact Hk. cbn [List.map]. f_equal.
    assert (Hk2' : lacks (chr ",") (chr " " :: k2)).
    { unfold lacks. intros [Heq|Hin]; [done|by apply Hk2]. }
    apply IH. by constructor.
Qed.

Lemma filter_clean (ks : list utf16) :
  Forall clean ks -> List.filter truthy_utf16 (List.map trim ks) = ks.
Proof.
  induction 1 as [|k ks (Hne & Htrim & _) _ IH]; [done|].
  cbn [List.map List.filter]. rewrite Htrim.
  apply truthy_utf16_true in Hne. by rewrite Hne, IH.
Qed.

(** The pieces of a joined list of comma-free keywords are the keywords,
    each but the first behind the space of the separator; trimming and
    filtering gives back the clean ones. *)
Lemma joined_pieces_parsed (k : utf16) (ks : list utf16) :
  Forall clean (k :: ks) ->
  List.filter truthy_utf16
    (List.map trim (k :: List.map (cons (chr " ")) ks)) = k :: ks.
Proof.
  intros Hclean. cbn [List.map]. rewrite map_map.
  rewrite (map_ext _ trim) by (intros a; apply trim_leading_space).
  exact (filter_clean (k :: ks) Hclean).
Qed.

Lemma joined_keywords_parsed (ks : list utf16) :
  Forall clean ks -> keywordArray (join (lit ", ") ks) = ks.
Proof.
  intros Hclean. destruct ks as [|k ks]; [done|].
  unfold keywordArray. rewrite split_join; [by apply joined_pieces_parsed|].
  eapply Forall_impl; [exact Hclean|]. by intros a (_ & _ & Ha).
Qed.

(** X2.  Joining clean keywords with ", " and parsing the text again gives
    the same keywords back, in the same order. *)
Theorem keywordArray_join (ks : list utf16) :
  Forall clean ks -> keywordArray (join (lit ", ") ks) = ks.
Proof.
  intros Hclean. destruct ks as [|k ks]; [done|].
  assert (Hcommas : Forall (lacks (chr ",")) (k :: ks)).
  { eapply Forall_impl; [exact Hclean|]. by intros a (_ & _ & Ha). }
  unfold keywordArray. rewrite (split_join k ks Hcommas).
  by apply joined_pieces_parsed.
Qed.

(** A keyword given as an ASCII literal is clean when the checks compute. *)
Lemma clean_intro (k : utf16) :
  k <> [] -> trim k = k -> ~ In (chr ",") k -> clean k.
Proof. intros H1 H2 H3. by repeat split. Qed.

Lemma keywordArray_join_witness :
  keywordArray (join (lit ", ") [lit "TSLA"; lit "stock"])
  = [lit "TSLA"; lit "stock"].
Proof.
  apply keywordArray_join.
  constructor; [|constructor; [|constructor]]; apply clean_intro;
    try discriminate; try reflexivity; cbn; intuition discriminate.
Defined.

(** A keyword that ends in a no-break space is not clean, and indeed does
    not survive the round trip: the field trims it. *)
Example no_break_space_keyword :
  ~ clean (lit "TSLA" ++ [160%N]) /\
  keywordArray (join (lit ", ") [lit "TSLA" ++ [160%N]]) = [lit "TSLA"].
Proof. split; [|reflexivity]. intros (_ & Htrim & _). discriminate Htrim. Qed.

End KeywordsFieldFacts.
Section KeywordsEditsFacts.
Import JS Text RuleCreator KeywordsField KeywordsEdits.

Lemma applyEdit_settled (f : Form) (e : FormEdit) :
  settled f -> settled (applyEdit f e).
Proof.
  intros [_ Hclean]. destruct e as [value|index]; split; cbn.
  - reflexivity.
  - apply parsed_keywords_clean.
  - unfold in_sync. cbn. apply joined_keywords_parsed. by apply Forall_delete.
  - by apply Forall_delete.
Qed.

(** X3.  After a template with clean keywords is loaded, the text of the
    keywords field and the chips stay in agreement through any typing and any
    chip deletions: parsing the text always gives the rule's keywords, and
    they stay clean. *)
Theorem keywords_field_in_sync (template : Rule) (edits : list FormEdit) :
  Forall clean (keywords (condition template)) ->
  settled (foldl applyEdit (loadTemplate template) edits).
Proof.
  intros Hclean.
  assert (Hstart : settled (loadTemplate template)).
  { split; [|exact Hclean]. unfold in_sync. cbn.
    by apply joined_keywords_parsed. }
  revert Hstart. generalize (loadTemplate template).
  induction edits as [|e edits IH]; intros f Hf; [exact Hf|].
  cbn [foldl]. apply IH. by apply applyEdit_settled.
Qed.

Lemma watchlist_clean : Forall clean (keywords (condition Samples.watchlist)).
Proof.
  cbn. constructor; [|constructor; [|constructor]]; apply clean_intro;
    try discriminate; try reflexivity; cbn; intuition discriminate.
Qed.

Lemma keywords_field_in_sync_witness :
  settled (foldl applyEdit (loadTemplate Samples.watchlist)
             [ChipDeleted 0; Typed (lit "TSLA, stock ,,earnings"); ChipDeleted 1]).
Proof.
  apply (keywords_field_in_sync Samples.watchlist
           [ChipDeleted 0; Typed (lit "TSLA, stock ,,earnings"); ChipDeleted 1]).
  exact watchlist_clean.
Defined.

(** The edits of that run, evaluated: the template shows "TSLA, stock";
    deleting the first chip leaves "stock"; the typed text gives three
    keywords; deleting the second leaves two and rewrites the text. *)
Example keywords_field_sample :
  form_keywords (loadTemplate Samples.watchlist) = lit "TSLA, stock" /\
  form_keywords (applyEdit (loadTemplate Samples.watchlist) (ChipDeleted 0))
    = lit "stock" /\
  keywords (condition (form_rule
    (applyEdit (loadTemplate Samples.watchlist)
       (Typed (lit "TSLA, stock ,,earnings")))))
    = [lit "TSLA"; lit "stock"; lit "earnings"] /\
  form_keywords
    (foldl applyEdit (loadTemplate Samples.watchlist)
       [ChipDeleted 0; Typed (lit "TSLA, stock ,,earnings"); ChipDeleted 1])
    = lit "TSLA, earnings".
Proof. repeat split. Qed.

(** A template whose keyword holds a comma is not shown faithfully. *)
Example comma_keyword_out_of_sync :
  let template :=
    handleConditionChange (set_keywords [lit "a,b"]) initialRule in
  keywordArray (form_keywords (loadTemplate template)) = [lit "a"; lit "b"].
Proof. reflexivity. Qed.

Lemma drop_spaces_all (cs : utf16) :
  Forall (fun c => is_space c = true) cs -> drop_spaces cs = [].
Proof. induction 1 as [|c cs Hc _ IH]; [done|]. cbn. by rewrite Hc. Qed.

Lemma separators_only_no_keywords (value : utf16) :
  separators_only value -> keywordArray value = [].
Proof.
  intros Hsep. unfold keywordArray.
  pose proof (split_incl (chr ",") value) as Hincl.
  pose proof (split_lack (chr ",") value) as Hlack.
  induction (split (chr ",") value) as [|w ws IH]; [done|].
  inversion Hincl as [|? ? Hw Hws]; subst.
  inversion Hlack as [|? ? Lw Lws]; subst.
  cbn [List.map List.filter].
  assert (Hspaces : Forall (fun c => is_space c = true) w).
  { apply List.Forall_forall. intros c Hc.
    unfold separators_only in Hsep. rewrite List.Forall_forall in Hsep.
    destruct (Hsep c (Hw c Hc)) as [?| ->]; [done|]. by destruct Lw. }
  assert (Htrim : trim w = []).
  { unfold trim. by rewrite (drop_spaces_all w Hspaces). }
  rewrite Htrim. cbn. by apply IH.
Qed.

Lemma keyword_rule_needs_keywords (r : Rule) :
  type (condition r) = "keyword" -> keywords (condition r) = [] ->
  snd (validateRule r) = false.
Proof.
  intros Hty Hkw. cbn [validateRule snd]. apply (errors_nonempty _ "keywords").
  apply check_pattern_keeps, check_threshold_keeps.
  unfold check_keywords. rewrite Hty, Hkw. cbn. by rewrite lookup_insert_eq.
Qed.

(** X4.  Keyword text made of commas and white space only yields no keyword
    at all, and a keyword rule edited that way cannot be saved or tested. *)
Theorem separators_only_not_saved (value : utf16) (f : Form)
    (errors : Errors) (handler : bool) :
  separators_only value ->
  type (condition (form_rule f)) = "keyword" ->
  let r := form_rule (handleKeywordsChange value f) in
  keywords (condition r) = [] /\
  snd (handleSave handler {| rule := r; validationErrors := errors |}) = [] /\
  snd (handleTest handler {| rule := r; validationErrors := errors |}) = [].
Proof.
  intros Hsep Hty. cbv zeta.
  assert (Hkw : keywords (condition (form_rule (handleKeywordsChange value f))) = []).
  { cbn. by apply separators_only_no_keywords. }
  assert (Hinvalid : snd (validateRule (form_rule (handleKeywordsChange value f))) = false).
  { apply keyword_rule_needs_keywords; [exact Hty|exact Hkw]. }
  split; [exact Hkw|].
  unfold handleSave, handleTest. cbn [rule].
  destruct (validateRule (form_rule (handleKeywordsChange value f))) as [e valid].
  cbn [snd] in *. by rewrite Hinvalid.
Qed.

Lemma separators_only_not_saved_witness :
  snd (handleSave true
         {| rule := form_rule (handleKeywordsChange (lit " , ,, " ++ [160%N])
                                 (loadTemplate (Samples.named "watch")));
            validationErrors := ∅ |}) = [].
Proof.
  apply (separators_only_not_saved (lit " , ,, " ++ [160%N])
           (loadTemplate (Samples.named "watch")) ∅ true).
  - unfold KeywordsEdits.separators_only. cbn [lit list_ascii_of_string List.map app].
    repeat (constructor; [first [left; reflexivity | right; reflexivity]|]).
    constructor.
  - reflexivity.
Defined.

End KeywordsEditsFacts.
Section ValidationFacts.
Import JS RuleCreator.

Lemma insert_not_empty (errors : Errors) k v :
  bool_decide (<[k := v]> errors = ∅) = false.
Proof. apply bool_decide_eq_false. apply insert_non_empty. Qed.

Lemma strict_eq_null (v : jsval) : strict_eq v JNull = true <-> v = JNull.
Proof. destruct v; cbn; split; congruence. Qed.

Lemma strict_eq_empty_string (v : jsval) :
  strict_eq v (JStr "") = true <-> v = JStr "".
Proof.
  destruct v; cbn; split; try congruence.
  - intros H. apply String.eqb_eq in H. by subst.
  - intros [= ->]. done.
Qed.

(** X5.  [validateRule] accepts a rule exactly when its name is not blank
    and the one check of its condition type passes: a keyword rule has a
    keyword, a threshold rule has a field and a threshold other than [null]
    and [''], a pattern rule has a non-blank pattern.  Any other condition
    type, such as [composite], needs the name only. *)
Theorem validateRule_accepts_iff (r : Rule) :
  snd (validateRule r) = true <->
  trim (name r) <> [] /\
  (type (condition r) = "keyword" -> keywords (condition r) <> []) /\
  (type (condition r) = "threshold" ->
     field (condition r) <> "" /\
     threshold (condition r) <> JNull /\
     threshold (condition r) <> JStr "") /\
  (type (condition r) = "pattern" -> trim (pattern (condition r)) <> []).
Proof.
  cbn [validateRule snd].
  unfold check_pattern, check_threshold, check_keywords, check_name, truthy_str.
  destruct (trim (name r)) as [|n ns] eqn:Hn; cbn [truthy_utf16 negb].
  { split.
    - intros H. exfalso. revert H.
      repeat case_match; rewrite ?insert_not_empty; try done.
      all: try (intros H; apply bool_decide_eq_true in H;
                by apply insert_non_empty in H).
    - intros [? _]. done. }
  destruct (String.eqb_spec (type (condition r)) "keyword") as [Hk|Hk].
  { rewrite Hk. cbn [String.eqb Ascii.eqb Bool.eqb andb].
    destruct (keywords (condition r)) as [|k ks] eqn:Hkw; cbn [length Nat.eqb andb].
    - rewrite insert_not_empty. split; [done|]. intros (_ & H & _). by destruct H.
    - split; [|done]. intros _. repeat split; try done. }
  cbn [andb].
  destruct (String.eqb_spec (type (condition r)) "threshold") as [Ht|Ht].
  { rewrite Ht. cbn [String.eqb Ascii.eqb Bool.eqb andb].
    destruct (String.eqb_spec (field (condition r)) "") as [Hf|Hf]; cbn [negb].
    - split.
      + intros H. exfalso. revert H. case_match; by rewrite insert_not_empty.
      + intros (_ & _ & H & _). by destruct (H eq_refl).
    - destruct (strict_eq (threshold (condition r)) JNull) eqn:H1.
      { cbn [orb]. rewrite insert_not_empty. split; [done|].
        intros (_ & _ & H & _). destruct (H eq_refl) as (_ & Hnull & _).
        by apply strict_eq_null in H1. }
      destruct (strict_eq (threshold (condition r)) (JStr "")) eqn:H2.
      { cbn [orb]. rewrite insert_not_empty. split; [done|].
        intros (_ & _ & H & _). destruct (H eq_refl) as (_ & _ & He).
        by apply strict_eq_empty_string in H2. }
      cbn [orb]. split; [|done]. intros _.
      repeat split; try done.
      + intros Hnull. apply strict_eq_null in Hnull. congruence.
      + intros He. apply strict_eq_empty_string in He. congruence. }
  destruct (String.eqb_spec (type (condition r)) "pattern") as [Hp|Hp].
  { cbn [andb].
    destruct (trim (pattern (condition r))) as [|c cs] eqn:He;
      cbn [truthy_utf16 negb].
    - rewrite insert_not_empty. split; [done|]. intros (_ & _ & _ & H).
      by destruct (H Hp).
    - split; [|done]. intros _. repeat split; try done. }
  cbn [andb]. split; [|done]. intros _. repeat split; done.
Qed.

End ValidationFacts.

Section QueryInputFacts.
Import JS QueryInput.

(** X6.  [handleSubmit] as written calls [onSubmit] at most once, and only
    with a query that is trimmed and not empty: never while loading, never for
    text that is blank.  What it sends is the text without the white space at
    its two ends.  Ctrl+Enter does the same and every other key does nothing.
    As shipped the form is never shown, so nothing is ever submitted: every
    render throws a ReferenceError on [Grid], which the module does not
    import. *)
Theorem handleSubmit_sends_trimmed (isLoading ctrlKey : bool) (key : string)
    (st : State) :
  (handleSubmit isLoading st = [] /\
     (isLoading = true \/ trim (query st) = [])
   \/
   exists d, handleSubmit isLoading st = [d] /\
     isLoading = false /\
     d_query d = trim (query st) /\ d_query d <> [] /\
     trim (d_query d) = d_query d /\
     (exists pre post,
        query st = pre ++ d_query d ++ post /\
        forallb is_space pre = true /\ forallb is_space post = true) /\
     safety_level d = safetyLevel st /\
     action_threshold d = actionThreshold st) /\
  handleKeyDown key ctrlKey isLoading st
    = (if String.eqb key "Enter" && ctrlKey
       then handleSubmit isLoading st else []) /\
  handleSubmit isLoading (handleClear st) = [] /\
  render = ReferenceError "Grid" /\
  submit isLoading st = [].
Proof.
  split; [|repeat split].
  unfold handleSubmit.
  destruct (trim (query st)) as [|c cs] eqn:He; cbn [truthy_utf16 negb andb].
  - left. split; [done|]. by right.
  - destruct isLoading; cbn [negb].
    + left. split; [done|]. by left.
    + right. eexists. split; [reflexivity|]. cbn [d_query safety_level
        action_threshold]. rewrite <- He.
      split; [done|]. split; [done|]. split; [by rewrite He|].
      split; [apply trim_idem|]. split; [|done].
      destruct (trim_spec (query st)) as (pre & post & Hq & Hpre & Hpost & _).
      by exists pre, post.
Qed.

(** A query wrapped in no-break spaces is sent without them, and one that is
    a no-break space alone is not sent. *)
Example handleSubmit_unicode :
  let typed q := edit (Type_ q) initial in
  List.map d_query (handleSubmit false (typed ([160%N] ++ lit "hi" ++ [160%N])))
    = [lit "hi"] /\
  handleSubmit false (typed [160%N]) = [].
Proof. split; reflexivity. Qed.

Lemma levelOfSlider_listed (v : Z) : In (levelOfSlider v) safetyLevels.
Proof.
  unfold levelOfSlider, safetyLevels.
  repeat case_match; cbn; tauto.
Qed.

(** X7.  The safety slider and the safety level are in step: the three slider
    positions 0, 50 and 100 map to a level and back unchanged, a level maps to
    a position and back unchanged exactly when it is one of the three listed
    levels, and after any edits of the form the level is one of the listed
    ones. *)
Theorem safety_slider_round_trip (v : Z) (level : string) (edits : list Edit) :
  (In v [0; 50; 100]%Z -> sliderValue (levelOfSlider v) = v) /\
  (levelOfSlider (sliderValue level) = level <-> In level safetyLevels) /\
  In (safetyLevel (foldl (fun st e => edit e st) initial edits)) safetyLevels.
Proof.
  split; [|split].
  - intros [<-|[<-|[<-|[]]]]; reflexivity.
  - unfold sliderValue, safetyLevels. split.
    + intros <-. apply levelOfSlider_listed.
    + intros [<-|[<-|[<-|[]]]]; reflexivity.
  - assert (Hinit : In (safetyLevel initial) safetyLevels) by (cbn; tauto).
    revert Hinit. generalize initial.
    induction edits as [|e edits IH]; intros st Hst; [exact Hst|].
    cbn [foldl]. apply IH. destruct e; cbn; try exact Hst.
    apply levelOfSlider_listed.
Qed.

Lemma safety_slider_round_trip_witness :
  sliderValue (levelOfSlider 50) = 50%Z.
Proof.
  apply (proj1 (safety_slider_round_trip 50 "medium" [])). cbn. tauto.
Defined.

End QueryInputFacts.

Section CountdownBounds.
Import ActionPreview.

Lemma clicked_cons p a ev evs :
  clicked p a (ev :: evs) = clicked p a [ev] ++ clicked p a evs.
Proof. unfold clicked. cbn [flat_map]. by rewrite app_nil_r. Qed.

(** One event either does what a click does and leaves the state alone, or
    is a timer tick that takes one second off the countdown, calling
    [onConfirm] only on the tick from 1 to 0. *)
Lemma card_step_shape p a st ev :
  action p = Some a ->
  (card_step p st ev = (st, clicked p a [ev])) \/
  (ev = TimerFired /\ (1 < countdown st)%Z /\
   card_step p st ev = ({| countdown := countdown st - 1 |}, [])) \/
  (ev = TimerFired /\ countdown st = 1%Z /\
   exists out, card_step p st ev = ({| countdown := 0 |}, out) /\
               (out = [] \/ out = [Confirm a])).
Proof.
  intros Ha. unfold card_step, armed. rewrite Ha.
  destruct ev; try (left; cbn [clicked flat_map]; by rewrite app_nil_r).
  destruct (autoConfirm p && requires a); cbn [andb]; [|by left].
  destruct (Z.ltb_spec 0 (countdown st)) as [Hpos|Hpos]; [|by left].
  destruct (Z.eqb_spec (countdown st) 1) as [H1|H1]; cbn [andb].
  - right. right. split; [done|]. split; [done|]. rewrite H1.
    destruct (onConfirm p); eexists; (split; [reflexivity|]); auto.
  - right. left. split; [done|]. split; [lia|]. done.
Qed.

(** The bound on the handlers as written, for a card that is shown. *)
Lemma card_timer_confirms_at_most_once p a st evs :
  action p = Some a ->
  length (snd (card_run p st evs))
    <= length (clicked p a evs) + (if (0 <? countdown st)%Z then 1 else 0) /\
  (In (Reject a) (snd (card_run p st evs)) -> In ClickReject evs) /\
  Forall (fun cb => cb = Confirm a \/ cb = Reject a) (snd (card_run p st evs)).
Proof.
  intros Ha. revert st. induction evs as [|ev evs IH]; intros st.
  { cbn. repeat split; [lia|tauto|constructor]. }
  cbn [card_run]. rewrite clicked_cons, length_app.
  destruct (card_step_shape p a st ev Ha)
    as [Hs | [(-> & Hc & Hs) | (-> & Hc & out & Hs & Hout)]]; rewrite Hs.
  - destruct (IH st) as (IHlen & IHrej & IHall).
    destruct (card_run p st evs) as [st2 out2]. cbn [snd] in *.
    rewrite length_app. split; [lia|]. split.
    + intros Hin. apply in_app_or in Hin as [Hin|Hin]; [|right; by apply IHrej].
      destruct ev; cbn in Hin.
      * destruct Hin.
      * destruct (onConfirm p); [destruct Hin as [?|[]]; done|destruct Hin].
      * by left.
    + apply Forall_app. split; [|exact IHall].
      destruct ev; cbn; [constructor| |].
      * destruct (onConfirm p); [|constructor].
        constructor; [by left|constructor].
      * destruct (onReject p); [|constructor].
        constructor; [by right|constructor].
  - destruct (IH {| countdown := countdown st - 1 |}) as (IHlen & IHrej & IHall).
    destruct (card_run p _ evs) as [st2 out2]. cbn [snd countdown app] in *.
    split.
    + destruct (Z.ltb_spec 0 (countdown st)); [|lia].
      destruct (0 <? countdown st - 1)%Z; cbn [clicked flat_map length]; lia.
    + split; [|exact IHall]. intros Hin. right. by apply IHrej.
  - destruct (IH {| countdown := 0 |}) as (IHlen & IHrej & IHall).
    destruct (card_run p _ evs) as [st2 out2]. cbn [snd countdown] in *.
    rewrite Hc. cbn [Z.ltb Z.compare clicked flat_map length] in *.
    destruct Hout as [-> | ->]; cbn [app length]; (split; [lia|]); split.
    + intros Hin. right. by apply IHrej.
    + exact IHall.
    + intros [?|Hin]; [done|]. right. by apply IHrej.
    + constructor; [by left|exact IHall].
Qed.

(** X8.  In one mount of the preview the timer adds at most one handler call
    to those of the clicks, and none once the countdown stands at zero; a
    reject call is always a Reject click. *)
Theorem timer_confirms_at_most_once p a st evs :
  action p = Some a ->
  length (snd (run p st evs))
    <= length (clicked p a evs) + (if (0 <? countdown st)%Z then 1 else 0) /\
  (In (Reject a) (snd (run p st evs)) -> In ClickReject evs) /\
  Forall (fun cb => cb = Confirm a \/ cb = Reject a) (snd (run p st evs)).
Proof.
  intros Ha. destruct (render p) eqn:Hr.
  - rewrite run_unrendered by (by rewrite Hr). cbn [snd length].
    repeat split; [lia|by intros []|constructor].
  - rewrite run_rendered by exact Hr.
    by apply card_timer_confirms_at_most_once.
  - rewrite run_unrendered by (by rewrite Hr). cbn [snd length].
    repeat split; [lia|by intros []|constructor].
Qed.

Lemma timer_confirms_at_most_once_witness :
  length (snd (run PreviewSamples.with_auto_confirm mount
                 (ClickConfirm :: repeat TimerFired 40)))
  <= length (clicked PreviewSamples.with_auto_confirm
               PreviewSamples.guarded_alert
               (ClickConfirm :: repeat TimerFired 40)) + 1.
Proof.
  exact (proj1 (timer_confirms_at_most_once PreviewSamples.with_auto_confirm
    PreviewSamples.guarded_alert mount (ClickConfirm :: repeat TimerFired 40)
    eq_refl)).
Defined.

End CountdownBounds.
Section ActionLogFacts.
Import JS ActionLog.

Lemma paginated_take_drop {A} (page rows : nat) (l : list A) :
  paginated page rows l = take rows (drop (page * rows) l).
Proof. unfold paginated, slice. f_equal. lia. Qed.

Lemma take_add_drop {A} (a b : nat) (l : list A) :
  take (a + b) l = take a l ++ take b (drop a l).
Proof.
  revert l. induction a as [|a IH]; intros l; [done|].
  destruct l as [|x l]; [cbn; by destruct b|].
  cbn [Nat.add take drop app]. by rewrite IH.
Qed.

(** X10.  The pages of the table cut the filtered list into consecutive
    pieces: the first [n] pages laid end to end are its first [n * rowsPerPage]
    entries, no page holds more than [rowsPerPage] rows, and a page is empty
    exactly when the list ends before it. *)
Theorem pages_partition {A} (rows n : nat) (l : list A) :
  0 < rows ->
  concat (List.map (fun page => paginated page rows l) (seq 0 n))
    = take (n * rows) l /\
  (length l <= n * rows ->
   concat (List.map (fun page => paginated page rows l) (seq 0 n)) = l) /\
  (forall page, length (paginated page rows l) <= rows) /\
  (forall page, paginated page rows l = [] <-> length l <= page * rows).
Proof.
  intros Hrows.
  assert (Hcat : concat (List.map (fun page => paginated page rows l) (seq 0 n))
                 = take (n * rows) l).
  { induction n as [|n IH]; [done|].
    rewrite seq_S, List.map_app, concat_app, IH. cbn [List.map concat Nat.add].
    rewrite app_nil_r, paginated_take_drop.
    replace (S n * rows) with (n * rows + rows) by lia.
    by rewrite take_add_drop. }
  split; [exact Hcat|]. split; [|split].
  - intros Hlen. rewrite Hcat. by apply take_ge.
  - intros page. rewrite paginated_take_drop, length_take. lia.
  - intros page. rewrite paginated_take_drop. split.
    + intros Hnil. apply (f_equal length) in Hnil.
      rewrite length_take, length_drop in Hnil. cbn in Hnil. lia.
    + intros Hlen. rewrite drop_ge by exact Hlen. by rewrite take_nil.
Qed.

Lemma pages_partition_witness :
  concat (List.map (fun page => paginated page 2 [1; 2; 3; 4; 5]) (seq 0 3))
    = [1; 2; 3; 4; 5].
Proof.
  apply (proj1 (proj2 (pages_partition 2 3 [1; 2; 3; 4; 5] ltac:(lia)))).
  cbn. lia.
Defined.

Lemma status_buckets (a : obj) :
  (if has_status "executed" a then 1 else 0)
  + (if has_status "failed" a then 1 else 0)
  + (if has_status "pending" a || has_status "requires_confirmation" a
     then 1 else 0) <= 1.
Proof.
  unfold has_status. destruct (get a "status") as [| | | | |s|]; cbn; try lia.
  destruct (String.eqb_spec s "executed") as [->|]; [cbn; lia|].
  destruct (String.eqb_spec s "failed") as [->|]; [cbn; lia|].
  destruct (_ || _); lia.
Qed.

Lemma filter_length_cons {A} (p : A -> bool) (x : A) (xs : list A) :
  length (List.filter p (x :: xs))
  = (if p x then 1 else 0) + length (List.filter p xs).
Proof. cbn [List.filter]. by destruct (p x). Qed.

(** X11.  The statistics of the action log count each action in at most one
    of the buckets executed, failed and pending, so the three never add up to
    more than the total; and the success rate is the number 0 exactly when
    there is no action, a formatted string otherwise. *)
Theorem stats_buckets (toFixed1 : Q -> string) (actions : list obj) :
  executed (stats toFixed1 actions) + failed (stats toFixed1 actions)
    + pending (stats toFixed1 actions) <= total (stats toFixed1 actions) /\
  total (stats toFixed1 actions) = length actions /\
  (successRate (stats toFixed1 actions) = JNum 0 <-> actions = []) /\
  (actions <> [] ->
   exists s, successRate (stats toFixed1 actions) = JStr s).
Proof.
  cbn [stats executed failed pending total successRate]. split; [|split; [done|]].
  - induction actions as [|a actions IH]; [cbn; lia|].
    rewrite !filter_length_cons. cbn [length].
    pose proof (status_buckets a). lia.
  - destruct actions as [|a actions]; cbn [length Nat.ltb Nat.leb].
    + split; [done|]. done.
    + split; [split; done|]. intros _. eexists; reflexivity.
Qed.

Lemma strict_eq_refl_truthy (v : jsval) :
  truthy v = true -> strict_eq v v = true.
Proof.
  destruct v; cbn; try done.
  - by destruct b.
  - intros _. apply Qeq_bool_iff. reflexivity.
  - intros _. apply String.eqb_refl.
  - intros _. apply Nat.eqb_refl.
Qed.

Lemma truthy_not_null (v : jsval) :
  truthy v = true -> strict_eq JNull v = false /\ strict_eq v JUndefined = false.
Proof. destruct v; cbn; done. Qed.

Lemma strict_eq_undefined (v : jsval) :
  strict_eq v JUndefined = true <-> v = JUndefined.
Proof. destruct v; cbn; split; congruence. Qed.

Lemma handleExpand_defined (actionId e : jsval) :
  actionId <> JUndefined -> handleExpand actionId e <> JUndefined.
Proof. intros Hid. unfold handleExpand. by destruct (strict_eq e actionId). Qed.

Lemma click_rows_defined (rows : list obj) (e : jsval) :
  Forall (fun row => row_id row <> JUndefined) rows ->
  e <> JUndefined -> click_rows rows e <> JUndefined.
Proof.
  intros Hrows. revert e. unfold click_rows.
  induction Hrows as [|row rows Hrow _ IH]; intros e He; [exact He|].
  cbn [foldl]. apply IH. by apply handleExpand_defined.
Qed.

(** X12.  The expand button of a row toggles the details of an action that
    has a truthy [action_id].  A row whose action has no [action_id] compares
    the stored value with [undefined]: its details show exactly when the
    stored value is [undefined].  Starting from [null], clicks on rows that
    have some id, its own button included, never bring that about, so the
    details of an action that carries only an [id] stay hidden; one click on
    a row with neither id stores [undefined] and shows them.  The early return
    of [renderActionDetails] compares a boolean with the [action_id] and so
    never fires for an id that is not a boolean. *)
Theorem expand_by_action_id_only (a : obj) (e : jsval) (rows : list obj) :
  (truthy (get a "action_id") = true ->
   expanded (handleExpand (row_id a) e) a = negb (expanded e a)) /\
  (get a "action_id" = JUndefined ->
   (expanded e a = true <-> e = JUndefined) /\
   (Forall (fun row => row_id row <> JUndefined) rows ->
    expanded (click_rows rows nothing_expanded) a = false) /\
   (forall row, row_id row = JUndefined -> e <> JUndefined ->
      expanded (handleExpand (row_id row) e) a = true)) /\
  ((forall b, get a "action_id" <> JBool b) -> details_suppressed e a = false).
Proof.
  split; [|split].
  - intros Hid. unfold row_id, or_else, handleExpand, expanded. rewrite Hid.
    destruct (strict_eq e (get a "action_id")) eqn:He; cbn [negb].
    + by apply truthy_not_null.
    + by apply strict_eq_refl_truthy.
  - intros Hnone. unfold expanded. rewrite Hnone. split; [|split].
    + apply strict_eq_undefined.
    + intros Hrows. apply not_true_is_false. intros Hshown.
      apply strict_eq_undefined in Hshown.
      by apply (click_rows_defined rows nothing_expanded Hrows).
    + intros row Hrow He. rewrite Hrow. unfold handleExpand.
      destruct (strict_eq e JUndefined) eqn:Heq; [|done].
      apply strict_eq_undefined in Heq. by destruct He.
  - intros Hnb. unfold details_suppressed.
    destruct (get a "action_id") eqn:Hid; try done. by destruct (Hnb b).
Qed.

Lemma expand_by_action_id_only_witness :
  expanded
    (click_rows [ {["id" := JStr "act-7"]}; {["action_id" := JStr "act-1"]};
                  {["id" := JStr "act-7"]} ] nothing_expanded)
    {["id" := JStr "act-7"]}
  = false.
Proof.
  refine (proj1 (proj2 (proj1 (proj2 (expand_by_action_id_only
    {["id" := JStr "act-7"]} JNull
    [ {["id" := JStr "act-7"]}; {["action_id" := JStr "act-1"]};
      {["id" := JStr "act-7"]} ])) _)) _).
  - reflexivity.
  - repeat (constructor; [by vm_compute|]). constructor.
Defined.

(** One click on a row whose action has neither id opens the details of
    every row without an [action_id] at once. *)
Example click_on_row_without_ids :
  let opened := click_rows [∅] nothing_expanded in
  opened = JUndefined /\
  expanded opened {["id" := JStr "act-7"]} = true /\
  expanded opened {["id" := JStr "act-8"]} = true /\
  expanded opened {["action_id" := JStr "act-1"]} = false.
Proof. by vm_compute. Qed.

End ActionLogFacts.

Section StoreNewest.
Import JS SystemStore.

Lemma take_app_take {A} (n m : nat) (xs ys : list A) :
  n <= m -> take n (xs ++ take m ys) = take n (xs ++ ys).
Proof.
  revert n. induction xs as [|x xs IH]; intros n Hle; cbn [app].
  - rewrite take_take. f_equal. lia.
  - destruct n as [|n]; [done|]. cbn [take]. f_equal. apply IH. lia.
Qed.

Lemma prepend_all {A} (cap : nat) (xs old : list A) :
  length old <= S cap ->
  foldl (fun l x => x :: slice0 cap l) old xs = take (S cap) (rev xs ++ old).
Proof.
  revert old. induction xs as [|x xs IH]; intros old Hold; cbn [foldl rev app].
  - by rewrite take_ge.
  - rewrite IH by apply prepend_slice0_length.
    rewrite <- app_assoc. cbn [app]. unfold slice0.
    change (x :: take cap old) with (take (S cap) (x :: old)).
    by apply take_app_take.
Qed.

Lemma foldl_actions (xs : list jsval) (st : State) :
  actions (foldl (fun s x => addAction x s) st xs)
  = foldl (fun l x => x :: slice0 99 l) (actions st) xs.
Proof. revert st. induction xs as [|x xs IH]; intros st; [done|]. cbn [foldl]. by rewrite IH. Qed.

Lemma foldl_dataStreams (xs : list jsval) (st : State) :
  dataStreams (foldl (fun s x => addDataStream x s) st xs)
  = foldl (fun l x => x :: slice0 49 l) (dataStreams st) xs.
Proof. revert st. induction xs as [|x xs IH]; intros st; [done|]. cbn [foldl]. by rewrite IH. Qed.

Lemma foldl_queries (xs : list jsval) (st : State) :
  queries (foldl (fun s x => addQuery x s) st xs)
  = foldl (fun l x => x :: slice0 49 l) (queries st) xs.
Proof. revert st. induction xs as [|x xs IH]; intros st; [done|]. cbn [foldl]. by rewrite IH. Qed.

(** X13.  The store keeps exactly the newest entries, newest first: after any
    batch of additions to a store within its bounds, each history is the
    reversed batch followed by the old history, cut at 100 actions, 50 data
    streams, 50 queries. *)
Theorem store_keeps_newest (xs : list jsval) (st : State) :
  bounded st ->
  actions (foldl (fun s x => addAction x s) st xs)
    = take 100 (rev xs ++ actions st) /\
  dataStreams (foldl (fun s x => addDataStream x s) st xs)
    = take 50 (rev xs ++ dataStreams st) /\
  queries (foldl (fun s x => addQuery x s) st xs)
    = take 50 (rev xs ++ queries st).
Proof.
  intros (Ha & Hd & Hq).
  rewrite foldl_actions, foldl_dataStreams, foldl_queries.
  repeat split; by apply prepend_all.
Qed.

Lemma store_keeps_newest_witness :
  actions (foldl (fun s x => addAction x s) initial [JRef 1; JRef 2; JRef 3])
    = take 100 (rev [JRef 1; JRef 2; JRef 3] ++ actions initial).
Proof.
  apply (proj1 (store_keeps_newest [JRef 1; JRef 2; JRef 3] initial
                  ltac:(unfold bounded; cbn; lia))).
Defined.

End StoreNewest.
Section RulesAlgebra.
Import JS SystemContext Provider.

Lemma get_spread_absent (rule updates : obj) k :
  updates !! k = None -> get (spread rule updates) k = get rule k.
Proof.
  intros Hk. unfold get, spread. by rewrite lookup_union_r.
Qed.

Lemma spread_spread (rule updates : obj) :
  spread (spread rule updates) updates = spread rule updates.
Proof.
  unfold spread. by rewrite (assoc_L (∪)), (idemp_L (∪)).
Qed.

(** X14.  Applying the same update to the rule list twice changes nothing
    more than applying it once, and an empty update changes nothing at all. *)
Theorem updateRule_idempotent (ruleId : jsval) (updates : obj) (prev : list obj) :
  updateRule_updater ruleId updates (updateRule_updater ruleId updates prev)
    = updateRule_updater ruleId updates prev /\
  updateRule_updater ruleId ∅ prev = prev.
Proof.
  unfold updateRule_updater. split.
  - rewrite map_map. apply map_ext. intros rule.
    destruct (has_id ruleId rule) eqn:Hid; [|by rewrite Hid].
    destruct (has_id ruleId (spread rule updates)); [|done].
    apply spread_spread.
  - rewrite <- (map_id prev) at 2. apply map_ext. intros rule.
    destruct (has_id ruleId rule); [|done]. unfold spread. apply (left_id_L ∅ (∪)).
Qed.

Lemma filter_all_true {A} (p : A -> bool) (xs : list A) :
  Forall (fun x => p x = true) xs -> List.filter p xs = xs.
Proof. induction 1 as [|x xs Hx _ IH]; [done|]. cbn. by rewrite Hx, IH. Qed.

(** X15.  Creating a rule and then deleting it by its id gives back the rule
    list as it was, provided the id equals itself under [===] and no other
    rule carries it. *)
Theorem create_then_delete (created : obj) (st : Ctx) (ok : Response) :
  has_id (get created "id") created = true ->
  Forall (fun rule => has_id (get created "id") rule = false) (rules st) ->
  rules (fst (deleteRule (Resolved ok) (get created "id")
                (fst (createRule (Resolved created) st))))
    = rules st.
Proof.
  intros Hself Hfresh. cbn [createRule deleteRule fst rules enqueue setRules].
  unfold deleteRule_updater. cbn [List.filter]. rewrite Hself. cbn [negb].
  apply filter_all_true. eapply Forall_impl; [exact Hfresh|].
  cbn. by intros rule ->.
Qed.

Lemma create_then_delete_witness :
  rules (fst (deleteRule (Resolved RulesSamples.ok)
                (get (<["id" := JStr "c"]> RulesSamples.disable) "id")
                (fst (createRule
                        (Resolved (<["id" := JStr "c"]> RulesSamples.disable))
                        RulesSamples.ctx))))
    = rules RulesSamples.ctx.
Proof.
  apply (create_then_delete (<["id" := JStr "c"]> RulesSamples.disable)
           RulesSamples.ctx RulesSamples.ok).
  - by vm_compute.
  - repeat constructor.
Defined.

(** A rule whose id is [NaN] equals no id and outlives its own deletion. *)
Example nan_id_survives_delete :
  deleteRule_updater JNaN [{["id" := JNaN]}] = [{["id" := JNaN]}].
Proof. reflexivity. Qed.

(** X16.  When the update carries no [id] key, updating the rules with an id
    and then deleting that id leaves the same list as deleting at once. *)
Theorem update_then_delete (ruleId : jsval) (updates : obj) (prev : list obj) :
  updates !! "id" = None ->
  deleteRule_updater ruleId (updateRule_updater ruleId updates prev)
    = deleteRule_updater ruleId prev.
Proof.
  intros Hno. unfold deleteRule_updater, updateRule_updater.
  induction prev as [|rule prev IH]; [done|]. cbn [List.map List.filter].
  destruct (has_id ruleId rule) eqn:Hid.
  - unfold has_id in *. rewrite (get_spread_absent _ _ _ Hno), Hid. exact IH.
  - rewrite Hid. cbn [negb]. by rewrite IH.
Qed.

Lemma update_then_delete_witness :
  deleteRule_updater (JStr "a")
    (updateRule_updater (JStr "a") RulesSamples.disable
       (rules RulesSamples.ctx))
  = deleteRule_updater (JStr "a") (rules RulesSamples.ctx).
Proof.
  apply (update_then_delete (JStr "a") RulesSamples.disable
           (rules RulesSamples.ctx)).
  reflexivity.
Defined.

(** An update that rewrites the id lets the rule escape the deletion. *)
Example update_id_then_delete :
  deleteRule_updater (JStr "a")
    (updateRule_updater (JStr "a") {["id" := JStr "z"]} [RulesSamples.rule_a])
  = [<["id" := JStr "z"]> RulesSamples.rule_a].
Proof. by vm_compute. Qed.

End RulesAlgebra.
Section StreamIds.
Import JS SystemContext Provider.

Lemma strict_eq_sym (a b : jsval) : strict_eq a b = strict_eq b a.
Proof.
  destruct a, b; cbn; try done.
  - by destruct b, b0.
  - apply eq_true_iff_eq. rewrite !Qeq_bool_iff. split; intros H; by symmetry.
  - apply String.eqb_sym.
  - apply Nat.eqb_sym.
Qed.

Lemma strict_eq_trans (a b c : jsval) :
  strict_eq a b = true -> strict_eq b c = true -> strict_eq a c = true.
Proof.
  destruct a, b; cbn; try done; destruct c; cbn; try done.
  - destruct b, b0, b1; done.
  - rewrite !Qeq_bool_iff. intros H1 H2. by rewrite H1.
  - intros H1 H2. apply String.eqb_eq in H1, H2. subst. apply String.eqb_refl.
  - intros H1 H2. apply Nat.eqb_eq in H1, H2. subst. apply Nat.eqb_refl.
Qed.

Lemma findIndex_None {A} (p : A -> bool) (xs : list A) :
  findIndex p xs = None -> Forall (fun x => p x = false) xs.
Proof.
  induction xs as [|x xs IH]; [constructor|]. cbn [findIndex].
  destruct (p x) eqn:Hp; [done|].
  destruct (findIndex p xs); [done|]. intros _. constructor; [done|by apply IH].
Qed.

Lemma findIndex_Some {A} (p : A -> bool) (xs : list A) i :
  findIndex p xs = Some i -> exists x, xs !! i = Some x /\ p x = true.
Proof.
  revert i. induction xs as [|x xs IH]; intros i; [done|]. cbn [findIndex].
  destruct (p x) eqn:Hp.
  - intros [= <-]. by exists x.
  - destruct (findIndex p xs) as [j|]; [|done]. intros [= <-].
    destruct (IH j eq_refl) as (y & Hy & Hpy). by exists y.
Qed.

Lemma get_spread_id (s data : obj) :
  strict_eq (get s "id") (get data "id") = true ->
  forall v, strict_eq v (get (spread s data) "id") = strict_eq v (get s "id").
Proof.
  intros Hsame v. unfold get, spread in *. rewrite lookup_union.
  destruct (data !! "id") as [d|] eqn:Hd; cbn [default union_with option_union_with] in *.
  - destruct (s !! "id") as [x|]; cbn [default] in *.
    + apply eq_true_iff_eq. split; intros H.
      * eapply strict_eq_trans; [exact H|]. by rewrite strict_eq_sym.
      * eapply strict_eq_trans; [exact H|exact Hsame].
    + apply eq_true_iff_eq. split; intros H.
      * eapply strict_eq_trans; [exact H|]. by rewrite strict_eq_sym.
      * eapply strict_eq_trans; [exact H|exact Hsame].
  - by destruct (s !! "id").
Qed.

(** Under pairwise different ids, the stream [findIndex] finds is the only
    one with the id of the update. *)
Lemma findIndex_unique (data : obj) (prev : list obj) i s :
  distinct_ids prev ->
  prev !! i = Some s -> strict_eq (get s "id") (get data "id") = true ->
  findIndex (fun s => strict_eq (get s "id") (get data "id")) prev = Some i.
Proof.
  intros Hdist Hs Hsame.
  destruct (findIndex _ prev) as [index|] eqn:Hfind.
  - apply findIndex_Some in Hfind as (s' & Hs' & Hsame').
    assert (Heq : strict_eq (get s' "id") (get s "id") = true).
    { eapply strict_eq_trans; [exact Hsame'|]. by rewrite strict_eq_sym. }
    destruct (Nat.lt_trichotomy index i) as [Hlt|[->|Hlt]]; [|done|].
    + by rewrite (Hdist index i s' s Hlt Hs' Hs) in Heq.
    + rewrite strict_eq_sym in Heq.
      by rewrite (Hdist i index s s' Hlt Hs Hs') in Heq.
  - apply findIndex_None in Hfind. rewrite List.Forall_forall in Hfind.
    assert (Hin : In s prev).
    { apply list_elem_of_In. by eapply list_elem_of_lookup_2. }
    by rewrite (Hfind s Hin) in Hsame.
Qed.

Lemma findIndex_none {A} (p : A -> bool) (xs : list A) :
  Forall (fun x => p x = false) xs -> findIndex p xs = None.
Proof.
  induction 1 as [|x xs Hx _ IH]; [done|]. cbn [findIndex]. by rewrite Hx, IH.
Qed.

(** X17.  [handleDataUpdate] never introduces a second stream with the same
    id: if the ids of the streams are pairwise different, they still are after
    the update.  A stream with the id of the update is merged in place, the
    update's keys winning, every other stream and the length staying as they
    are; when no stream has the id, the update is put in front of the first
    49 streams.  A list of at most 50 streams stays within 50. *)
Theorem handleDataUpdate_keeps_ids_distinct (data : obj) (prev : list obj) :
  distinct_ids prev ->
  distinct_ids (handleDataUpdate_updater data prev) /\
  (forall i s,
     prev !! i = Some s -> strict_eq (get s "id") (get data "id") = true ->
     handleDataUpdate_updater data prev = <[i := spread s data]> prev /\
     length (handleDataUpdate_updater data prev) = length prev) /\
  (Forall (fun s => strict_eq (get s "id") (get data "id") = false) prev ->
   handleDataUpdate_updater data prev = data :: take 49 prev) /\
  (length prev <= 50 -> length (handleDataUpdate_updater data prev) <= 50).
Proof.
  intros Hdist. split; [|split; [|split]].
  - unfold handleDataUpdate_updater.
    destruct (findIndex _ prev) as [index|] eqn:Hfind.
    + apply findIndex_Some in Hfind as (s & Hs & Hsame).
      intros i j a b Hij Ha Hb.
      rewrite list_lookup_alter in Ha, Hb.
      destruct (decide (index = i)) as [<-|Hi];
        destruct (decide (index = j)) as [<-|Hj]; try lia.
      * rewrite Hs in Ha. cbn in Ha. injection Ha as <-.
        rewrite (strict_eq_sym (get (spread s data) "id")).
        rewrite (get_spread_id s data Hsame), strict_eq_sym.
        by apply (Hdist index j).
      * rewrite Hs in Hb. cbn in Hb. injection Hb as <-.
        rewrite (get_spread_id s data Hsame).
        by apply (Hdist i index).
      * by apply (Hdist i j).
    + apply findIndex_None in Hfind.
      intros i j a b Hij Ha Hb. destruct j as [|j]; [lia|].
      cbn in Hb. unfold slice0 in Hb. apply lookup_take_Some in Hb as [Hb _].
      destruct i as [|i].
      * cbn in Ha. injection Ha as <-.
        rewrite strict_eq_sym. rewrite List.Forall_forall in Hfind.
        apply Hfind. apply list_elem_of_In. by eapply list_elem_of_lookup_2.
      * cbn in Ha. unfold slice0 in Ha. apply lookup_take_Some in Ha as [Ha _].
        apply (Hdist i j); [lia|done|done].
  - intros i s Hs Hsame. unfold handleDataUpdate_updater.
    rewrite (findIndex_unique data prev i s Hdist Hs Hsame).
    split; [|apply length_alter].
    rewrite list_insert_alter. apply list_alter_ext; [|done].
    intros x Hx. rewrite Hs in Hx. by injection Hx as <-.
  - intros Hnone. unfold handleDataUpdate_updater.
    by rewrite (findIndex_none _ prev Hnone).
  - intros Hlen. unfold handleDataUpdate_updater. case_match.
    + by rewrite length_alter.
    + apply (prepend_slice0_length 49).
Qed.

Lemma sample_streams_distinct : distinct_ids RulesSamples.streams.
Proof.
  intros i j a b Hij Ha Hb.
  destruct i as [|[|i]], j as [|[|j]]; try lia; cbn in Ha, Hb;
    try discriminate; by injection Ha as <-; injection Hb as <-.
Qed.

Lemma handleDataUpdate_keeps_ids_distinct_witness :
  distinct_ids (handleDataUpdate_updater RulesSamples.tick RulesSamples.streams).
Proof.
  exact (proj1 (handleDataUpdate_keeps_ids_distinct RulesSamples.tick
                  RulesSamples.streams sample_streams_distinct)).
Defined.

(** The update of that run, evaluated: the second stream takes the new
    value in place; an update with an unknown id goes in front. *)
Example handleDataUpdate_sample :
  handleDataUpdate_updater RulesSamples.tick RulesSamples.streams
    = [ <["id" := JStr "s1"]> {["value" := JNum 1]};
        <["id" := JStr "s2"]> {["value" := JNum 5]} ] /\
  handleDataUpdate_updater (<["id" := JStr "s3"]> ∅) RulesSamples.streams
    = (<["id" := JStr "s3"]> ∅) :: RulesSamples.streams.
Proof. split; by vm_compute. Qed.

End StreamIds.
Section ProviderFacts.
Import JS SystemContext Provider.

(** X18.  [processQuery] sends the query text with the context type, time
    range and safety level only: the action threshold and the history switch
    chosen in the form never reach the API, so they cannot change the answer,
    the metrics or the length of the query history. *)
Theorem threshold_never_sent (now : string)
    (post : QueryRequest -> awaited Response jsval)
    (d : QueryInput.QueryData) (threshold : Z) (history : bool) (st : State) :
  let d' := {| QueryInput.d_query := QueryInput.d_query d;
               QueryInput.context_type := QueryInput.context_type d;
               QueryInput.time_range := QueryInput.time_range d;
               QueryInput.safety_level := QueryInput.safety_level d;
               QueryInput.action_threshold := threshold;
               QueryInput.include_history := history |} in
  queryRequest d' = queryRequest d /\
  snd (processQuery now post d' st) = snd (processQuery now post d st) /\
  systemStatus (fst (processQuery now post d' st))
    = systemStatus (fst (processQuery now post d st)) /\
  List.map response (queries (fst (processQuery now post d' st)))
    = List.map response (queries (fst (processQuery now post d st))).
Proof.
  cbv zeta.
  set (d' := {| QueryInput.d_query := QueryInput.d_query d;
                QueryInput.action_threshold := threshold |}).
  assert (Hreq : queryRequest d' = queryRequest d) by reflexivity.
  split; [exact Hreq|]. unfold processQuery. rewrite Hreq.
  destruct (post (queryRequest d)); cbn; repeat split; reflexivity.
Qed.

(** X19.  A failed query leaves the query history and the metrics as they
    were, reports the failure and rethrows; a successful one puts its entry in
    front of the first 49 entries of the history, counts one more query,
    shows no notice and returns [response.data].  Either way the loading flag
    ends up off. *)
Theorem processQuery_outcomes (now : string)
    (post : QueryRequest -> awaited Response jsval)
    (d : QueryInput.QueryData) (st : State) :
  isLoading (fst (processQuery now post d st)) = false /\
  match post (queryRequest d) with
  | Rejected error =>
      queries (fst (processQuery now post d st)) = queries st /\
      systemStatus (fst (processQuery now post d st)) = systemStatus st /\
      snackbar (ctx (fst (processQuery now post d st)))
        = snackbar (ctx st)
          ++ [{| message := "Failed to process query"; variant := "error" |}] /\
      snd (processQuery now post d st) = Rejected error
  | Resolved r =>
      queries (fst (processQuery now post d st))
        = {| queryData := d; response := data r; timestamp := now |}
          :: take 49 (queries st) /\
      queryCount (metrics (systemStatus (fst (processQuery now post d st))))
        = queryCount (metrics (systemStatus st)) + 1 /\
      ctx (fst (processQuery now post d st)) = ctx st /\
      snd (processQuery now post d st) = Resolved (data r)
  end.
Proof.
  unfold processQuery. destruct (post (queryRequest d)) as [r|error].
  - cbn. repeat split.
  - cbn. repeat split.
Qed.

Lemma updateSystemStatus_missing {R} (settled : awaited R jsval) :
  invoke "updateSystemStatus" settled = Rejected (JStr "TypeError").
Proof.
  unfold invoke. rewrite bool_decide_eq_false_2; [done|].
  cbn. intros H. repeat (destruct H as [H|H]; [discriminate H|]). exact H.
Qed.

(** X20.  [toggleSystem] cannot pause or resume the system: it calls
    [apiService.updateSystemStatus], which the API module does not define, so
    the call throws inside the [try], the status is left as it was and the
    failure notice is shown, whatever the server would have answered. *)
Theorem toggleSystem_never_toggles (now : string)
    (settled : awaited Response jsval) (st : State) :
  ~ In "updateSystemStatus" apiService /\
  systemStatus (toggleSystem now settled st) = systemStatus st /\
  snackbar (ctx (toggleSystem now settled st))
    = snackbar (ctx st)
      ++ [{| message := "Failed to update system status";
             variant := "error" |}].
Proof.
  split.
  - cbn. intros H. repeat (destruct H as [H|H]; [discriminate H|]). exact H.
  - unfold toggleSystem. rewrite updateSystemStatus_missing. by cbn.
Qed.

Lemma apply_invariant (st : State) (op : Op) :
  isActive (systemStatus (apply st op)) = isActive (systemStatus st) /\
  isLoading (apply st op) = (match op with Query _ _ _ => false | _ => isLoading st end) /\
  (length (queries st) <= 50 -> length (queries (apply st op)) <= 50) /\
  (length (errors st) <= 10 -> length (errors (apply st op)) <= 10) /\
  queryCount (metrics (systemStatus (apply st op)))
    = queryCount (metrics (systemStatus st)) + (if answered op then 1 else 0).
Proof.
  destruct op as [now post d|e| |now settled]; cbn [apply answered].
  - unfold processQuery. destruct (post (queryRequest d)); cbn.
    + repeat split; try lia. intros _. unfold slice0.
      rewrite length_take. lia.
    + repeat split; try lia; done.
  - cbn. repeat split; try lia; try done.
    intros _. unfold slice0. rewrite length_take. lia.
  - cbn. repeat split; try lia; done.
  - unfold toggleSystem. rewrite updateSystemStatus_missing. cbn.
    repeat split; try lia; done.
Qed.

(** X21.  Through any sequence of queries, error reports, error clearings
    and system toggles the provider keeps at most 50 queries and 10 errors, is
    not left loading, counts exactly the answered queries, and stays active. *)
Theorem provider_invariants (now : string) (ops : list Op) :
  let st := foldl apply (initial now) ops in
  length (queries st) <= 50 /\
  length (errors st) <= 10 /\
  isLoading st = false /\
  isActive (systemStatus st) = true /\
  queryCount (metrics (systemStatus st)) = length (List.filter answered ops).
Proof.
  cbv zeta.
  assert (Hgen : forall st,
    length (queries st) <= 50 -> length (errors st) <= 10 ->
    isLoading st = false ->
    let st' := foldl apply st ops in
    length (queries st') <= 50 /\ length (errors st') <= 10 /\
    isLoading st' = false /\
    isActive (systemStatus st') = isActive (systemStatus st) /\
    queryCount (metrics (systemStatus st'))
      = queryCount (metrics (systemStatus st))
        + length (List.filter answered ops)).
  { induction ops as [|op ops IH]; intros st Hq He Hl; cbn [foldl List.filter].
    - cbn. repeat split; try done; lia.
    - destruct (apply_invariant st op) as (Ha & Hload & Hq' & He' & Hc).
      destruct (IH (apply st op)) as (H1 & H2 & H3 & H4 & H5);
        [by apply Hq'|by apply He'| |].
      + rewrite Hload. by destruct op.
      + cbv zeta in *. repeat split; try done.
        * by rewrite H4.
        * rewrite H5, Hc. destruct (answered op); cbn [length]; lia. }
  destruct (Hgen (initial now)) as (H1 & H2 & H3 & H4 & H5); cbn; try lia; try done.
Qed.

End ProviderFacts.
Section ApiFacts.
Import JS Api.

Variable transport : Config -> awaited jsval (option nat).
Variable refresh : string -> awaited string (option nat).

Lemma attachToken_retry (s : Storage) (config : Config) :
  _retry (attachToken s config) = _retry config /\
  url (attachToken s config) = url config.
Proof. unfold attachToken. by repeat case_match. Qed.

(** What the retried request carries is what the interceptor just stored. *)
Lemma attachToken_after_refresh (s : Storage) (u token : string) :
  attachToken (<["access_token" := token]> s)
    {| url := u; authorization := Some (String.append "Bearer " token);
       _retry := true |}
  = {| url := u; authorization := Some (String.append "Bearer " token);
       _retry := true |}.
Proof. unfold attachToken. rewrite lookup_insert_eq. by case_match. Qed.

(** A request already marked [_retry] is sent once and settles as sent. *)
Lemma api_marked (fuel : nat) (w : World) (config : Config) :
  _retry config = true ->
  api transport refresh (S fuel) w config
  = Some (record (Sent (attachToken (storage w) config)) w,
          match transport (attachToken (storage w) config) with
          | Resolved r => Resolved r
          | Rejected status =>
              Rejected (ResponseError status (attachToken (storage w) config))
          end).
Proof.
  intros Hmark. cbn [api].
  destruct (attachToken_retry (storage w) config) as [Hr _].
  destruct (transport _) as [r|status]; [done|].
  rewrite Hr, Hmark. cbn [negb]. by rewrite andb_false_r.
Qed.

Lemma api_unfold (fuel : nat) (w : World) (config : Config) :
  api transport refresh (S fuel) w config =
  let c := attachToken (storage w) config in
  let w1 := record (Sent c) w in
  match transport c with
  | Resolved r => Some (w1, Resolved r)
  | Rejected status =>
      if bool_decide (status = Some 401) && negb (_retry c) then
        let c1 := {| url := url c; authorization := authorization c;
                     _retry := true |} in
        match storage w1 !! "refresh_token" with
        | Some refreshToken =>
            if truthy_str refreshToken then
              let w2 := record (RefreshPosted refreshToken) w1 in
              match refresh refreshToken with
              | Resolved access_token =>
                  api transport refresh fuel
                    {| storage := <["access_token" := access_token]> (storage w2);
                       location := location w2;
                       calls := calls w2 |}
                    {| url := url c1;
                       authorization :=
                         Some (String.append "Bearer " access_token);
                       _retry := true |}
              | Rejected refreshStatus =>
                  Some ({| storage := ∅; location := "/login";
                           calls := calls w2 |},
                        Rejected (RefreshError refreshStatus))
              end
            else Some (w1, Rejected (ResponseError status c1))
        | None => Some (w1, Rejected (ResponseError status c1))
        end
      else Some (w1, Rejected (ResponseError status c))
  end.
Proof. reflexivity. Qed.

Lemma api_fuel (fuel : nat) (w : World) (config : Config) :
  api transport refresh (S (S fuel)) w config = api transport refresh 2 w config.
Proof.
  rewrite (api_unfold (S fuel)), (api_unfold 1). cbv zeta.
  repeat case_match; try reflexivity.
  by rewrite !api_marked.
Qed.

(** The calls one request adds to the log. *)
Lemma api_calls (w : World) (config : Config) :
  exists w' result new,
    api transport refresh 2 w config = Some (w', result) /\
    calls w' = calls w ++ new /\
    length (List.filter is_sent new) <= 2 /\
    length (List.filter (fun c => negb (is_sent c)) new) <= 1 /\
    head new = Some (Sent (attachToken (storage w) config)).
Proof.
  rewrite (api_unfold 1). cbv zeta.
  destruct (transport (attachToken (storage w) config)) as [r|status].
  { eexists _, _, [_]. split; [reflexivity|]. split; [reflexivity|].
    cbn. repeat split; lia. }
  destruct (bool_decide (status = Some 401) && negb _).
  2: { eexists _, _, [_]. split; [reflexivity|]. split; [reflexivity|].
    cbn. repeat split; lia. }
  cbn [record storage].
  destruct (storage w !! "refresh_token") as [rt|].
  2: { eexists _, _, [_]. split; [reflexivity|]. split; [reflexivity|].
    cbn. repeat split; lia. }
  destruct (truthy_str rt).
  2: { eexists _, _, [_]. split; [reflexivity|]. split; [reflexivity|].
    cbn. repeat split; lia. }
  destruct (refresh rt) as [token|rs].
  - rewrite api_marked by done. cbn [record storage calls location].
    eexists _, _, [_; _; _]. split; [reflexivity|]. cbn [calls record].
    rewrite <- !app_assoc. split; [reflexivity|]. cbn. repeat split; lia.
  - eexists _, _, [_; _]. split; [reflexivity|]. cbn [calls record].
    rewrite <- !app_assoc. split; [reflexivity|]. cbn. repeat split; lia.
Qed.

(** X22.  A request through the axios instance always settles, and with at
    most two sends and one token refresh: the retry after a 401 is marked and
    is never retried again, whatever the server answers. *)
Theorem api_settles_within_two_sends (w : World) (config : Config) :
  exists w' result new,
    api transport refresh 2 w config = Some (w', result) /\
    (forall fuel, 2 <= fuel ->
       api transport refresh fuel w config = Some (w', result)) /\
    calls w' = calls w ++ new /\
    length (List.filter is_sent new) <= 2 /\
    length (List.filter (fun c => negb (is_sent c)) new) <= 1 /\
    head new = Some (Sent (attachToken (storage w) config)).
Proof.
  destruct (api_calls w config) as (w' & result & new & Hrun & Hrest).
  exists w', result, new. split; [exact Hrun|]. split; [|exact Hrest].
  intros fuel Hfuel. destruct fuel as [|[|fuel]]; try lia.
  by rewrite api_fuel.
Qed.

Lemma api_without_refresh_token (w : World) (config : Config) status :
  transport (attachToken (storage w) config) = Rejected status ->
  (storage w !! "refresh_token" = None \/ storage w !! "refresh_token" = Some ""
   \/ status <> Some 401 \/ _retry config = true) ->
  exists c,
    api transport refresh 2 w config
    = Some (record (Sent (attachToken (storage w) config)) w,
            Rejected (ResponseError status c)) /\
    url c = url config.
Proof.
  intros Hfail Hcase. rewrite (api_unfold 1). cbv zeta. rewrite Hfail.
  destruct (attachToken_retry (storage w) config) as [Hr Hu].
  destruct (bool_decide (status = Some 401) && negb _) eqn:Hgate.
  2: { eexists. split; [reflexivity|exact Hu]. }
  apply andb_true_iff in Hgate as [H401 Hfresh].
  apply bool_decide_eq_true in H401. rewrite Hr in Hfresh.
  cbn [record storage].
  destruct Hcase as [-> | [-> | [Hne | Hmark]]].
  - eexists. split; [reflexivity|exact Hu].
  - cbn. eexists. split; [reflexivity|exact Hu].
  - done.
  - rewrite Hmark in Hfresh. done.
Qed.

(** X23.  After a 401 on a fresh request with a refresh token in storage:
    if the refresh fails, the storage is emptied, the browser is sent to
    [/login] and the refresh error is what the caller gets; if it succeeds,
    the new access token is stored, the request is sent again carrying it,
    and the caller gets whatever that second attempt gives, a second 401
    included. *)
Theorem refresh_outcomes (w : World) (config : Config) (rt : string) :
  _retry config = false ->
  transport (attachToken (storage w) config) = Rejected (Some 401) ->
  storage w !! "refresh_token" = Some rt -> rt <> "" ->
  let c := attachToken (storage w) config in
  match refresh rt with
  | Rejected refreshStatus =>
      api transport refresh 2 w config
      = Some ({| storage := ∅; location := "/login";
                 calls := calls w ++ [Sent c; RefreshPosted rt] |},
              Rejected (RefreshError refreshStatus))
  | Resolved token =>
      let again := {| url := url config;
                      authorization := Some (String.append "Bearer " token);
                      _retry := true |} in
      api transport refresh 2 w config
      = Some ({| storage := <["access_token" := token]> (storage w);
                 location := location w;
                 calls := calls w ++ [Sent c; RefreshPosted rt; Sent again] |},
              match transport again with
              | Resolved r => Resolved r
              | Rejected status => Rejected (ResponseError status again)
              end)
  end.
Proof.
  intros Hfresh Hfail Hrt Hne. cbv zeta. rewrite (api_unfold 1). cbv zeta.
  rewrite Hfail.
  destruct (attachToken_retry (storage w) config) as [Hr Hu].
  rewrite Hr, Hfresh, bool_decide_eq_true_2 by done. cbn [andb negb record storage].
  rewrite Hrt. unfold truthy_str.
  destruct (String.eqb_spec rt "") as [|_]; [done|]. cbn [negb].
  destruct (refresh rt) as [token|rs].
  - rewrite api_marked by done. cbn [storage calls location record url].
    rewrite attachToken_after_refresh, Hu. unfold record.
    cbn [storage calls location]. by rewrite <- !app_assoc.
  - cbn [calls record]. by rewrite <- !app_assoc.
Qed.

End ApiFacts.
Section ApiWitness.
Import JS Api.

Lemma refresh_outcomes_witness :
  api ApiSamples.server ApiSamples.refresher 2 ApiSamples.stale
    ApiSamples.getRules
  = Some ({| storage := <["access_token" := "fresh"]> (storage ApiSamples.stale);
             location := "/dashboard";
             calls :=
               [Sent {| url := "/api/v1/rules";
                        authorization := Some "Bearer stale";
                        _retry := false |};
                RefreshPosted "r1";
                Sent {| url := "/api/v1/rules";
                        authorization := Some "Bearer fresh";
                        _retry := true |}] |},
          Resolved (JStr "ok")).
Proof.
  exact (refresh_outcomes ApiSamples.server ApiSamples.refresher
           ApiSamples.stale ApiSamples.getRules "r1"
           eq_refl eq_refl eq_refl ltac:(discriminate)).
Defined.

End ApiWitness.

Section AuthFacts.
Import JS Auth.

Variable stringify : User -> string.
Variable encodeURIComponent : string -> string.

(** X24.  [logout] removes the three credentials and nothing else from the
    storage, so the request interceptor attaches no [Authorization] header
    afterwards; [login] stores a token the interceptor then attaches, and a
    [logout] after it leaves the storage as a [logout] alone would.  The user
    set by [login] has the role admin and passes every permission check. *)
Theorem logout_drops_credentials (email password permission : string)
    (st : State) (config : Api.Config) (k : string) :
  Api.attachToken (storage (logout st)) config = config /\
  storage (logout st) !! "refresh_token" = None /\
  storage (logout st) !! "user_data" = None /\
  (k <> "access_token" -> k <> "user_data" -> k <> "refresh_token" ->
   storage (logout st) !! k = storage st !! k) /\
  Api.authorization
    (Api.attachToken
       (storage (login stringify encodeURIComponent email password st)) config)
    = Some "Bearer mock_jwt_token" /\
  storage (logout (login stringify encodeURIComponent email password st))
    = storage (logout st) /\
  hasPermission
    (user (login stringify encodeURIComponent email password st)) permission
    = true /\
  hasPermission (user (logout st)) permission = false.
Proof.
  repeat split.
  - unfold Api.attachToken. cbn [logout storage].
    rewrite lookup_delete_ne, lookup_delete_ne, lookup_delete_eq by done. done.
  - cbn [logout storage]. by rewrite lookup_delete_eq.
  - cbn [logout storage]. by rewrite lookup_delete_ne, lookup_delete_eq.
  - intros H1 H2 H3. cbn [logout storage]. by rewrite !lookup_delete_ne.
  - unfold Api.attachToken. cbn [login storage].
    rewrite lookup_insert_ne, lookup_insert_eq by done. done.
  - cbn [logout login storage]. apply map_eq. intros i.
    destruct (decide (i = "refresh_token")) as [->|H1];
      [by rewrite !lookup_delete_eq|].
    destruct (decide (i = "user_data")) as [->|H2];
      [by rewrite !(lookup_delete_ne _ "refresh_token"), !lookup_delete_eq|].
    destruct (decide (i = "access_token")) as [->|H3].
    + by rewrite !(lookup_delete_ne _ "refresh_token"),
         !(lookup_delete_ne _ "user_data"), !lookup_delete_eq.
    + by rewrite !lookup_delete_ne, !lookup_insert_ne.
  - cbn. by rewrite orb_true_r.
Qed.

End AuthFacts.

Section AuthSamples.
Import JS Auth.

Lemma logout_drops_credentials_witness :
  storage (logout {| user := None; loading := false; error := None;
                     storage := {["theme" := "dark"]}; path := "/" |})
    !! "theme" = Some "dark".
Proof.
  rewrite (proj1 (proj2 (proj2 (proj2 (logout_drops_credentials
             email (fun s => s) "" "" ""
             {| user := None; loading := false; error := None;
                storage := {["theme" := "dark"]}; path := "/" |}
             ApiSamples.getRules "theme")))) ltac:(discriminate)
             ltac:(discriminate) ltac:(discriminate)).
  reflexivity.
Defined.

End AuthSamples.
Section RouteFacts.
Import JS Auth.

Lemma existsb_includes (p : string) (ps : list string) :
  existsb (String.eqb p) ps = true <-> In p ps.
Proof.
  rewrite existsb_exists. split.
  - intros (x & Hx & He). apply String.eqb_eq in He. by subst.
  - intros Hin. exists p. split; [done|apply String.eqb_refl].
Qed.

Lemma hasPermission_iff (u : User) (p : string) :
  hasPermission (Some u) p = true <->
  role u = "admin" \/ exists ps, permissions u = Some ps /\ In p ps.
Proof.
  cbn [hasPermission]. rewrite orb_true_iff, String.eqb_eq. split.
  - intros [H|H]; [right|by left].
    destruct (permissions u) as [ps|]; [|done].
    exists ps. split; [done|]. by apply existsb_includes.
  - intros [H|(ps & Hps & Hin)]; [by right|left].
    rewrite Hps. by apply existsb_includes.
Qed.

(** X25.  The [ProtectedRoute] of AuthContent.jsx renders the protected
    page for exactly these sessions: authentication has settled, a user is
    present, and the user is an admin by role or holds every required
    permission.  The [ProtectedRoute] of the routes file renders nothing for
    any session: its first statement calls [useAuth], which that file neither
    imports nor declares, so every render throws a ReferenceError. *)
Theorem protected_route_admits_iff (st : State) (required : list string) :
  (ProtectedRoute st required = Children <->
   loading st = false /\
   exists u, user st = Some u /\
     (role u = "admin" \/
      forall p, In p required ->
        exists ps, permissions u = Some ps /\ In p ps)) /\
  in_routes_scope "useAuth" = false /\
  RouteGuard st required = ReferenceError "useAuth" /\
  ProtectedRoute st required <> ReferenceError "useAuth".
Proof.
  assert (Hall : forall u,
    forallb (hasPermission (Some u)) required = true <->
    (role u = "admin" \/
     forall p, In p required -> exists ps, permissions u = Some ps /\ In p ps)).
  { intros u. rewrite forallb_forall. split.
    - intros H. destruct (String.eqb_spec (role u) "admin") as [|Hrole];
        [by left|right].
      intros p Hp. apply H, hasPermission_iff in Hp as [?|?]; done.
    - intros [Hadmin|Hps] p Hp; apply hasPermission_iff; [by left|right].
      by apply Hps. }
  split; [|split; [reflexivity|split; [reflexivity|]]].
  2: { unfold ProtectedRoute. by repeat case_match. }
  unfold ProtectedRoute, isAuthenticated, hasRequiredPermissions.
  destruct (loading st); [split; try done; by intros [? _]|].
  destruct (user st) as [u|] eqn:Hu; cbn [negb].
  2: { split; try done. by intros (_ & ? & ? & _). }
  specialize (Hall u).
  destruct required as [|r required]; cbn [length Nat.ltb Nat.leb andb].
  - split; [|done]. intros _. split; [done|].
    exists u. split; [done|]. right. by intros p [].
  - destruct (forallb (hasPermission (Some u)) (r :: required)) eqn:Hf;
      cbn [negb].
    + split; [|done]. intros _. split; [done|].
      exists u. split; [done|]. by apply Hall.
    + split; [done|]. intros (_ & u' & [= <-] & H).
      apply Hall in H. congruence.
Qed.

Lemma prefix_iff (r c : string) :
  String.prefix r c = true <-> exists s, c = String.append r s.
Proof.
  revert c. induction r as [|a r IH]; intros c.
  - split; [intros _; by exists c|]. intros _. by destruct c.
  - destruct c as [|b c]; cbn [String.prefix].
    + split; [done|]. by intros (s & [=]).
    + destruct (Ascii.ascii_dec a b) as [<-|Hne].
      * rewrite IH. split; intros (s & Hs); exists s.
        -- change (String a r +:+ s) with (String a (r +:+ s)). by rewrite <- Hs.
        -- by injection Hs.
      * split; [done|]. intros (s & Hs). injection Hs as -> _. done.
Qed.

(** X26.  A route other than "/" counts as active on every path that starts
    with it, whatever follows, so "/settings" is active on "/settings/api" and
    "/rules" on "/rules-old" alike; the root route is active on "/" only. *)
Theorem isActiveRoute_prefix (currentPath routePath : string) :
  isActiveRoute currentPath routePath = true <->
  (routePath = "/" /\ currentPath = "/") \/
  (routePath <> "/" /\ exists rest, currentPath = String.append routePath rest).
Proof.
  unfold isActiveRoute. destruct (String.eqb_spec routePath "/") as [->|Hne].
  - rewrite String.eqb_eq. split; [by left|]. by intros [[_ ?]|[? _]].
  - rewrite prefix_iff. split; [by right|]. by intros [[? _]|[_ ?]].
Qed.

End RouteFacts.

Section DisplayFacts.

Lemma Qle_bool_false (a b : Q) : Qle_bool a b = false <-> (b < a)%Q.
Proof.
  split.
  - intros H. apply Qnot_le_lt. intros Hle. apply Qle_bool_iff in Hle. congruence.
  - intros Hlt. apply not_true_is_false. intros Hle. apply Qle_bool_iff in Hle.
    by apply (Qlt_not_le _ _ Hlt).
Qed.

(** X27.  For a decision flagged as requiring action, the colour of the
    results panel and the confidence label of the preview agree except on one
    value: "success" goes with "High" or "Very High", "warning" with "Medium"
    or "High", every "Low" is "error" -- and a confidence of exactly 0.5 is
    "error" in the panel while the preview labels it "Medium". *)
Theorem colour_and_label (d : ResultsDisplay.Decision) :
  ResultsDisplay.action_required d = true ->
  let colour := ResultsDisplay.getDecisionColor (Some d) in
  let label := ActionPreview.getConfidenceLevel (ResultsDisplay.confidence d) in
  (colour = "success" -> label = "High" \/ label = "Very High") /\
  (colour = "warning" -> label = "Medium" \/ label = "High") /\
  (label = "Low" -> colour = "error") /\
  (colour = "error" -> label = "Low" \/
     (label = "Medium" /\ (ResultsDisplay.confidence d == 5 # 10)%Q)).
Proof.
  intros Hflag. cbv zeta.
  unfold ResultsDisplay.getDecisionColor, ActionPreview.getConfidenceLevel.
  rewrite Hflag. set (c := ResultsDisplay.confidence d).
  destruct (Qle_bool c (8 # 10)) eqn:H8; cbn [negb].
  - assert (H9 : Qle_bool (9 # 10) c = false).
    { apply Qle_bool_false. apply Qle_bool_iff in H8.
      eapply Qle_lt_trans; [exact H8|]. reflexivity. }
    rewrite H9.
    destruct (Qle_bool c (5 # 10)) eqn:H5; cbn [negb].
    + assert (H7 : Qle_bool (7 # 10) c = false).
      { apply Qle_bool_false. apply Qle_bool_iff in H5.
        eapply Qle_lt_trans; [exact H5|]. reflexivity. }
      rewrite H7. destruct (Qle_bool (5 # 10) c) eqn:H5'.
      * repeat split; try done. intros _. right. split; [done|].
        apply Qle_antisym; by apply Qle_bool_iff.
      * repeat split; try done. intros _. by left.
    + assert (H5' : Qle_bool (5 # 10) c = true).
      { apply Qle_bool_iff. apply Qlt_le_weak. by apply Qle_bool_false. }
      rewrite H5'. destruct (Qle_bool (7 # 10) c); repeat split; try done;
        intros _; auto.
  - assert (H7 : Qle_bool (7 # 10) c = true).
    { apply Qle_bool_iff. apply Qlt_le_weak.
      eapply Qlt_trans; [|apply Qle_bool_false; exact H8]. reflexivity. }
    destruct (Qle_bool (9 # 10) c); rewrite ?H7; repeat split; try done;
      intros _; auto.
Qed.

Lemma colour_and_label_witness :
  ActionPreview.getConfidenceLevel (5 # 10) = "Low" \/
  (ActionPreview.getConfidenceLevel (5 # 10) = "Medium" /\ (5 # 10 == 5 # 10)%Q).
Proof.
  apply (proj2 (proj2 (proj2 (colour_and_label
    {| ResultsDisplay.action_required := true;
       ResultsDisplay.confidence := 5 # 10 |} eq_refl)))).
  reflexivity.
Defined.

End DisplayFacts.
